(** * The chat hub of [src/app/api/socket/route.ts]

    A shallow embedding of the WebSocket route handler: the two module
    globals ([connections], [history]), the helpers [broadcast],
    [registerPresence] and [pruneHistory], and the three listeners that
    [GET] attaches to every accepted socket.

    The handler code is written in a small state-and-exception monad that
    also logs every side effect in program order, so that statements about
    what is sent, to whom and in which order are statements about that log.

    Conventions.
    - A JavaScript string is a [string]; one [ascii] stands for one code
      unit (the units below 256).
    - A value produced by [JSON.parse] is a [Json]; [undefined] is [None]
      of [option Json].
    - The runtime's services ([JSON.parse], [JSON.stringify],
      [crypto.randomUUID], [Date.prototype.toISOString], the outcome of a
      [send] on a socket) are variables of a section: every theorem holds
      for each of their behaviours. *)

From Stdlib Require Import String Ascii List ZArith QArith Bool Arith Lia.
From Stdlib Require Import DecimalString.
Import ListNotations.
Open Scope string_scope.
Open Scope list_scope.
Open Scope nat_scope.

(** ** Strings and arrays of the runtime *)

Module Js.

(** WhiteSpace and LineTerminator code units (below 256) that
    [String.prototype.trim] strips: TAB, LF, VT, FF, CR, SP, NBSP. *)
Definition is_white_space (c : ascii) : bool :=
  let n := nat_of_ascii c in
  (n =? 9) || (n =? 10) || (n =? 11) || (n =? 12) || (n =? 13)
  || (n =? 32) || (n =? 160).

Fixpoint trimStart (s : string) : string :=
  match s with
  | EmptyString => EmptyString
  | String c r => if is_white_space c then trimStart r else s
  end.

Fixpoint rev_append (s acc : string) : string :=
  match s with
  | EmptyString => acc
  | String c r => rev_append r (String c acc)
  end.

Definition reverse (s : string) : string := rev_append s EmptyString.

Definition trimEnd (s : string) : string := reverse (trimStart (reverse s)).

Definition trim (s : string) : string := trimEnd (trimStart s).

(** The clamping of a relative index that [slice] applies to both of its
    arguments: a negative index counts from the end. *)
Definition relative_index (len i : Z) : Z :=
  if (i <? 0)%Z then Z.max (len + i) 0 else Z.min i len.

(** [String.prototype.slice(start, stop)]. *)
Definition String_slice (s : string) (start stop : Z) : string :=
  let len := Z.of_nat (String.length s) in
  let from := relative_index len start in
  let to := relative_index len stop in
  substring (Z.to_nat from) (Z.to_nat (Z.max (to - from) 0)) s.

(** [Array.prototype.slice(start, stop?)]; always a new array. *)
Definition Array_slice {A : Type} (l : list A) (start : Z) (stop : option Z)
  : list A :=
  let len := Z.of_nat (length l) in
  let from := relative_index len start in
  let to := match stop with
            | Some e => relative_index len e
            | None => len
            end in
  firstn (Z.to_nat (Z.max (to - from) 0)) (skipn (Z.to_nat from) l).

End Js.

(** ** JSON values *)

#[local] Unset Elimination Schemes.
Inductive Json : Type :=
| JNull
| JBool (b : bool)
| JNumber (q : Q)
| JString (s : string)
| JArray (items : list Json)
| JObject (fields : list (string * Json)).
#[local] Set Elimination Schemes.

Fixpoint assoc {A : Type} (k : string) (kvs : list (string * A)) : option A :=
  match kvs with
  | [] => None
  | (k', v) :: rest => if String.eqb k k' then Some v else assoc k rest
  end.

(** ToBoolean: [undefined], [null], [false], zero and the empty string are
    falsy, every array and object is truthy. *)
Definition truthy (v : option Json) : bool :=
  match v with
  | None => false
  | Some JNull => false
  | Some (JBool b) => b
  | Some (JNumber q) => negb (Qeq_bool q 0)
  | Some (JString s) => negb (String.eqb s "")
  | Some (JArray _) => true
  | Some (JObject _) => true
  end.

(** ** Data of the route *)

(** [type ChatMessage]. The declared type of [alias] and [color] is
    [string]; at run time they hold whatever [x?.slice(..) || fallback]
    evaluated to, hence a [Json]. *)
Record ChatMessage : Type := mkChatMessage {
  msg_id : string;
  msg_text : string;
  msg_alias : Json;
  msg_color : Json;
  msg_sentAt : string
}.

(** A server-side socket, named by the index of the [WebSocketPair] that
    created it. *)
Definition WebSocket : Type := nat.

(** The other socket of a pair, [{ 0: client, 1: server }]: the route
    never calls a method of it, it only hands it out in the response. *)
Inductive ClientEnd : Type := client_of (pair : nat).

(** [type Connection]. *)
Record Connection : Type := mkConnection {
  conn_id : string;
  conn_socket : WebSocket
}.

(** The three events a listener is attached for. *)
Inductive EventKind : Type := OnMessage | OnClose | OnError.

(** [options?: { exclude?: string }]. *)
Record BroadcastOptions : Type := mkOptions { exclude : option string }.

(** [new Response(body, { status, webSocket })]. *)
Record Response : Type := mkResponse {
  status : nat;
  webSocket : option ClientEnd
}.

(** A [Map<string, V>] with its insertion order: [set] on a present key
    replaces the value in place, on an absent key appends. *)
Module JsMap.

Definition t (V : Type) : Type := list (string * V).

Fixpoint set {V : Type} (k : string) (v : V) (m : t V) : t V :=
  match m with
  | [] => [(k, v)]
  | (k', v') :: rest =>
      if String.eqb k k' then (k, v) :: rest else (k', v') :: set k v rest
  end.

Fixpoint delete {V : Type} (k : string) (m : t V) : t V :=
  match m with
  | [] => []
  | (k', v') :: rest =>
      if String.eqb k k' then rest else (k', v') :: delete k rest
  end.

Definition values {V : Type} (m : t V) : list V := map snd m.

Definition keys {V : Type} (m : t V) : list string := map fst m.

Definition size {V : Type} (m : t V) : nat := length m.

Definition has {V : Type} (k : string) (m : t V) : bool :=
  match assoc k m with Some _ => true | None => false end.

End JsMap.

(** Serialised shapes. *)
Definition json_of_message (m : ChatMessage) : Json :=
  JObject [ ("id", JString (msg_id m));
            ("text", JString (msg_text m));
            ("alias", msg_alias m);
            ("color", msg_color m);
            ("sentAt", JString (msg_sentAt m)) ].

Definition history_event (messages : list ChatMessage) : Json :=
  JObject [ ("type", JString "history");
            ("messages", JArray (map json_of_message messages)) ].

Definition message_event (message : ChatMessage) : Json :=
  JObject [ ("type", JString "message");
            ("message", json_of_message message) ].

Definition presence_event (count : nat) : Json :=
  JObject [ ("type", JString "presence");
            ("count", JNumber (inject_Z (Z.of_nat count))) ].

(** ** Program state *)

(** The module globals and what the closures of [GET] capture. Arrays live
    in [arrays] and are named by their position; [history] holds a
    reference, as the [let] of the source does. *)
Record State : Type := mkState {
  connections : JsMap.t Connection;
  history : nat;
  arrays : list (list ChatMessage);
  listeners : list (WebSocket * EventKind * string);
  pairs : nat;
  drawn : nat;
  clock : nat
}.

Definition initial : State :=
  {| connections := [];
     history := 0;
     arrays := [[]];
     listeners := [];
     pairs := 0;
     drawn := 0;
     clock := 0 |}.

(** The array a reference points to. *)
Definition deref (s : State) (r : nat) : list ChatMessage := nth r (arrays s) [].

(** The contents of the message store. *)
Definition store (s : State) : list ChatMessage := deref s (history s).

Inductive JsError : Type :=
| SyntaxError
| TypeError
| SendError.

(** Side effects, one constructor per kind of effectful statement. *)
Inductive Effect : Type :=
| NewWebSocketPair (server : WebSocket)
| RandomUUID (id : string)
| Accept (sock : WebSocket)
| MapSet (key : string)
| MapDelete (key : string)
| HistoryAppend (message : ChatMessage)
| HistoryPrune
| Stringify (data : Json)
| Send (sock : WebSocket) (payload : string) (threw : bool)
| ConsoleError (label : string)
| DateNow (iso : string)
| AddEventListener (sock : WebSocket) (kind : EventKind)
| Uncaught (e : JsError).

Inductive Result (A : Type) : Type :=
| Return (a : A)
| Throw (e : JsError).
Arguments Return {A} a.
Arguments Throw {A} e.

(** ** The monad of handler code *)

Definition M (A : Type) : Type := State -> Result A * State * list Effect.

Definition ret {A : Type} (a : A) : M A := fun s => (Return a, s, []).

Definition bind {A B : Type} (m : M A) (f : A -> M B) : M B :=
  fun s =>
    match m s with
    | (Return a, s1, t1) =>
        match f a s1 with (r, s2, t2) => (r, s2, t1 ++ t2) end
    | (Throw e, s1, t1) => (Throw e, s1, t1)
    end.

Definition throw {A : Type} (e : JsError) : M A := fun s => (Throw e, s, []).

(** [try { m } catch (error) { h }]. *)
Definition try_catch {A : Type} (m : M A) (h : JsError -> M A) : M A :=
  fun s =>
    match m s with
    | (Return a, s1, t1) => (Return a, s1, t1)
    | (Throw e, s1, t1) =>
        match h e s1 with (r, s2, t2) => (r, s2, t1 ++ t2) end
    end.

Definition emit (e : Effect) : M unit := fun s => (Return tt, s, [e]).

Definition gets {A : Type} (f : State -> A) : M A := fun s => (Return (f s), s, []).

Definition modify (f : State -> State) : M unit := fun s => (Return tt, f s, []).

(** [for (const x of xs) { body }]; [continue] is an early [ret tt]. *)
Fixpoint for_of {A : Type} (xs : list A) (body : A -> M unit) : M unit :=
  match xs with
  | [] => ret tt
  | x :: rest => bind (body x) (fun _ => for_of rest body)
  end.

Declare Scope js_scope.
Delimit Scope js_scope with js.
Notation "x <- m ;; k" := (bind m (fun x => k))
  (at level 61, m at next level, right associativity) : js_scope.
Notation "m ;; k" := (bind m (fun _ => k))
  (at level 61, right associativity) : js_scope.
Open Scope js_scope.

(** State updates. *)
Definition with_connections (f : JsMap.t Connection -> JsMap.t Connection)
  (s : State) : State :=
  {| connections := f (connections s); history := history s;
     arrays := arrays s; listeners := listeners s; pairs := pairs s;
     drawn := drawn s; clock := clock s |}.

(** Allocates a new array and makes [history] point to it. *)
Definition assign_history (a : list ChatMessage) (s : State) : State :=
  {| connections := connections s; history := length (arrays s);
     arrays := arrays s ++ [a]; listeners := listeners s; pairs := pairs s;
     drawn := drawn s; clock := clock s |}.

Definition add_listener (sock : WebSocket) (kind : EventKind) (id : string)
  (s : State) : State :=
  {| connections := connections s; history := history s;
     arrays := arrays s; listeners := listeners s ++ [(sock, kind, id)];
     pairs := pairs s; drawn := drawn s; clock := clock s |}.

Definition next_pair (s : State) : State :=
  {| connections := connections s; history := history s;
     arrays := arrays s; listeners := listeners s; pairs := S (pairs s);
     drawn := drawn s; clock := clock s |}.

Definition next_draw (s : State) : State :=
  {| connections := connections s; history := history s;
     arrays := arrays s; listeners := listeners s; pairs := pairs s;
     drawn := S (drawn s); clock := clock s |}.

Definition advance (s : State) : State :=
  {| connections := connections s; history := history s;
     arrays := arrays s; listeners := listeners s; pairs := pairs s;
     drawn := drawn s; clock := S (clock s) |}.

(** ** The route *)

(** [event.data] of a message event: a string, or binary data. *)
Inductive MessageData : Type :=
| Binary
| Text (s : string).

(** What the runtime delivers to the module. *)
Inductive Event : Type :=
| Request (upgrade : option string)
| SocketMessage (sock : WebSocket) (data : MessageData)
| SocketClose (sock : WebSocket)
| SocketError (sock : WebSocket)
| Tick.

(** ** Concrete runtime services for the examples *)

Module Demo.

Definition quote : string := String (ascii_of_nat 34) EmptyString.

Definition decimal (z : Z) : string := NilZero.string_of_int (Z.to_int z).

(** A serialiser in the format of [JSON.stringify] for values whose
    strings need no escaping and whose numbers are integers (a fraction,
    which the route never builds, is shown as a quotient). *)
Fixpoint stringify (j : Json) : string :=
  match j with
  | JNull => "null"
  | JBool true => "true"
  | JBool false => "false"
  | JNumber q =>
      if (Zpos (Qden q) =? 1)%Z then decimal (Qnum q)
      else (decimal (Qnum q) ++ "/" ++ decimal (Zpos (Qden q)))%string
  | JString s => (quote ++ s ++ quote)%string
  | JArray items =>
      ("[" ++ (fix elements (l : list Json) : string :=
                 match l with
                 | [] => ""
                 | x :: r =>
                     stringify x ++
                     match r with [] => "" | _ => "," ++ elements r end
                 end) items ++ "]")%string
  | JObject fields =>
      ("{" ++ (fix members (l : list (string * Json)) : string :=
                 match l with
                 | [] => ""
                 | (k, v) :: r =>
                     quote ++ k ++ quote ++ ":" ++ stringify v ++
                     match r with [] => "" | _ => "," ++ members r end
                 end) fields ++ "}")%string
  end.

(** A client message [{type: "message", text: "  hi "}] and its text. *)
Definition hello : Json :=
  JObject [ ("type", JString "message"); ("text", JString "  hi ") ].

Definition hello_text : string := stringify hello.

(** [JSON.parse] on the texts the examples use; any other text is taken
    to be malformed. *)
Definition parse (text : string) : option Json :=
  if String.eqb text "null" then Some JNull
  else if String.eqb text hello_text then Some hello
  else None.

Fixpoint tally (n : nat) : string :=
  match n with
  | O => EmptyString
  | S k => String "i" (tally k)
  end.

(** Identifiers that differ from draw to draw. *)
Definition uuid (n : nat) : string := String "u" (tally n).

Definition iso (n : nat) : string := decimal (Z.of_nat n).

(** Socket 1 is broken: every [send] on it throws. *)
Definition send_throws (sock : WebSocket) (_ : string) : bool := sock =? 1.

(** A request that asks for the upgrade; two clients connect; then the
    second one goes away. *)
Definition upgrade : option string := Some "websocket".

Definition two_connects : list Event := [Request upgrade; Request upgrade].

Definition second_leaves : list Event := two_connects ++ [SocketClose 1].

(** A client message whose text has 481 characters. *)
Definition long_message : Json :=
  JObject [ ("type", JString "message");
            ("text", JString (string_of_list_ascii (repeat "a"%char 481))) ].

(** The chat message the route builds from [hello] once [u] and [ui] are
    drawn and the clock reads 0. *)
Definition greeting : ChatMessage :=
  {| msg_id := "uii";
     msg_text := "hi";
     msg_alias := JString "Anonymous";
     msg_color := JString "bg-slate-100 text-slate-900";
     msg_sentAt := "0" |}.

(** Client messages that the listener of the route throws on: a text
    that is a number, an alias that is a boolean. *)
Definition counted : Json :=
  JObject [ ("type", JString "message"); ("text", JNumber 5) ].

Definition flagged : Json :=
  JObject [ ("type", JString "message"); ("text", JString "hi");
            ("alias", JBool true) ].

(** Client messages whose alias is [null], and an array. *)
Definition nameless : Json :=
  JObject [ ("type", JString "message"); ("text", JString "hi");
            ("alias", JNull) ].

Definition listed : Json :=
  JObject [ ("type", JString "message"); ("text", JString "hi");
            ("alias", JArray [JString "a"; JString "b"]) ].

(** What the page of the persona of seed 14 sends for the input
    [  hey there ]. *)
Definition said : Json :=
  JObject [ ("type", JString "message"); ("text", JString "hey there");
            ("alias", JString "Calm Fox");
            ("color", JString "bg-blue-100 text-blue-900") ].

(** A client message whose alias is the empty array and whose color is
    an array that holds one string of 89 characters. *)
Definition boxed : Json :=
  JObject [ ("type", JString "message"); ("text", JString "hi");
            ("alias", JArray []);
            ("color",
             JArray [JString (string_of_list_ascii (repeat "c"%char 89))]) ].

(** [JSON.parse] as the inverse of [stringify] on the values the
    examples exchange; any other text is taken to be malformed. *)
Definition known : list Json :=
  [ hello; counted; flagged; nameless; listed; boxed; said;
    history_event []; presence_event 1; presence_event 2;
    message_event greeting ].

Definition read (text : string) : option Json :=
  find (fun d => String.eqb (stringify d) text) known.

(** The first client connects, a second one connects, greets and
    leaves. *)
Definition visit : list Event :=
  [ Request upgrade; SocketMessage 1 (Text hello_text); SocketClose 1 ].

End Demo.

Section Route.

(** [JSON.parse]; [None] when it throws a SyntaxError. *)
Variable JSON_parse : string -> option Json.
(** [JSON.stringify]. *)
Variable JSON_stringify : Json -> string.
(** The n-th identifier that [crypto.randomUUID] hands out. *)
Variable randomUUID : nat -> string.
(** [new Date().toISOString()] at a given reading of the clock. *)
Variable toISOString : nat -> string.
(** Whether [send] on a socket throws for a payload. *)
Variable send_throws : WebSocket -> string -> bool.

Definition new_WebSocketPair : M (ClientEnd * WebSocket) :=
  fun s =>
    (Return (client_of (pairs s), pairs s), next_pair s,
     [NewWebSocketPair (pairs s)]).

Definition crypto_randomUUID : M string :=
  fun s =>
    let id := randomUUID (drawn s) in
    (Return id, next_draw s, [RandomUUID id]).

Definition new_Date_toISOString : M string :=
  fun s => let iso := toISOString (clock s) in (Return iso, s, [DateNow iso]).

Definition stringify (data : Json) : M string :=
  emit (Stringify data) ;; ret (JSON_stringify data).

Definition parse (text : string) : M Json :=
  match JSON_parse text with
  | Some v => ret v
  | None => throw SyntaxError
  end.

Definition socket_send (sock : WebSocket) (payload : string) : M unit :=
  if send_throws sock payload
  then emit (Send sock payload true) ;; throw SendError
  else emit (Send sock payload false).

Definition console_error (label : string) : M unit :=
  emit (ConsoleError label).

(** [options?.exclude && connection.id === options.exclude] *)
Definition excluded (options : option BroadcastOptions)
  (connection : Connection) : bool :=
  match options with
  | Some {| exclude := Some e |} =>
      negb (String.eqb e "") && String.eqb (conn_id connection) e
  | _ => false
  end.

Definition broadcast (data : Json) (options : option BroadcastOptions)
  : M unit :=
  payload <- stringify data ;;
  cs <- gets connections ;;
  for_of (JsMap.values cs) (fun connection =>
    if excluded options connection then ret tt
    else try_catch (socket_send (conn_socket connection) payload)
                   (fun _ => console_error "Broadcast failed")).

Definition registerPresence : M unit :=
  cs <- gets connections ;;
  broadcast (presence_event (JsMap.size cs)) None.

Definition pruneHistory : M unit :=
  h <- gets store ;;
  if 200 <? length h
  then h <- gets store ;;
       emit HistoryPrune ;;
       modify (assign_history (Js.Array_slice h (-200) None))
  else ret tt.

(** [data.k] for the property names the listener reads ([type], [text],
    [alias], [color]): none of them is defined on a string, number,
    boolean or array, and reading a property of [null] throws. *)
Definition get_field (k : string) (data : Json) : M (option Json) :=
  match data with
  | JNull => throw TypeError
  | JObject fields => ret (assoc k fields)
  | _ => ret None
  end.

(** [v !== "message"] *)
Definition is_not_message (v : option Json) : bool :=
  match v with
  | Some (JString s) => negb (String.eqb s "message")
  | _ => true
  end.

(** [v.trim()] for a truthy [v]: only a string has the method. *)
Definition call_trim (v : option Json) : M string :=
  match v with
  | Some (JString s) => ret (Js.trim s)
  | _ => throw TypeError
  end.

(** [v?.slice(0, n)]: [undefined] for a nullish [v], the method of
    strings and of arrays, a TypeError for anything else. *)
Definition optional_slice (v : option Json) (n : Z) : M (option Json) :=
  match v with
  | None => ret None
  | Some JNull => ret None
  | Some (JString s) => ret (Some (JString (Js.String_slice s 0 n)))
  | Some (JArray items) => ret (Some (JArray (Js.Array_slice items 0 (Some n))))
  | Some _ => throw TypeError
  end.

(** [v || fallback] *)
Definition or_else (v : option Json) (fallback : Json) : Json :=
  match v with
  | Some j => if truthy v then j else fallback
  | None => fallback
  end.

(** The listener for [message] events. *)
Definition on_message (event_data : MessageData) : M unit :=
  match event_data with
  | Binary => ret tt
  | Text str =>
      parsed <- try_catch (d <- parse str ;; ret (Some d))
                  (fun _ => console_error "Invalid payload" ;; ret None) ;;
      match parsed with
      | None => ret tt
      | Some data =>
          type <- get_field "type" data ;;
          if is_not_message type then ret tt else
          text <- get_field "text" data ;;
          if negb (truthy text) then ret tt else
          trimmed <- call_trim text ;;
          if String.eqb trimmed "" then ret tt else
          id <- crypto_randomUUID ;;
          alias0 <- get_field "alias" data ;;
          alias <- optional_slice alias0 48 ;;
          color0 <- get_field "color" data ;;
          color <- optional_slice color0 64 ;;
          sentAt <- new_Date_toISOString ;;
          let message :=
            {| msg_id := id;
               msg_text := Js.String_slice trimmed 0 480;
               msg_alias := or_else alias (JString "Anonymous");
               msg_color := or_else color (JString "bg-slate-100 text-slate-900");
               msg_sentAt := sentAt |} in
          h <- gets store ;;
          emit (HistoryAppend message) ;;
          modify (assign_history (h ++ [message])) ;;
          pruneHistory ;;
          broadcast (message_event message) None
      end
  end.

(** [cleanup], the listener for [close] and for [error]. *)
Definition cleanup (connectionId : string) : M unit :=
  emit (MapDelete connectionId) ;;
  modify (with_connections (JsMap.delete connectionId)) ;;
  registerPresence.

Definition addEventListener (sock : WebSocket) (kind : EventKind)
  (connectionId : string) : M unit :=
  emit (AddEventListener sock kind) ;;
  modify (add_listener sock kind connectionId).

(** [!request.headers.get("upgrade")]: no header, or an empty one. *)
Definition no_upgrade (upgrade : option string) : bool :=
  match upgrade with
  | None => true
  | Some v => String.eqb v ""
  end.

Definition GET (upgrade : option string) : M Response :=
  if no_upgrade upgrade then ret (mkResponse 426 None) else
  pair <- new_WebSocketPair ;;
  let '(client, server) := pair in
  connectionId <- crypto_randomUUID ;;
  emit (Accept server) ;;
  let connection := {| conn_id := connectionId; conn_socket := server |} in
  emit (MapSet connectionId) ;;
  modify (with_connections (JsMap.set connectionId connection)) ;;
  try_catch (h <- gets store ;;
             payload <- stringify (history_event h) ;;
             socket_send server payload)
            (fun _ => console_error "Failed to send history") ;;
  registerPresence ;;
  addEventListener server OnMessage connectionId ;;
  addEventListener server OnClose connectionId ;;
  addEventListener server OnError connectionId ;;
  ret (mkResponse 101 (Some client)).

(** *** The event loop *)

Definition kind_eqb (a b : EventKind) : bool :=
  match a, b with
  | OnMessage, OnMessage | OnClose, OnClose | OnError, OnError => true
  | _, _ => false
  end.

Definition listens (sock : WebSocket) (kind : EventKind)
  (l : WebSocket * EventKind * string) : bool :=
  (fst (fst l) =? sock) && kind_eqb (snd (fst l)) kind.

(** Runs the listeners attached to [sock] for [kind]; what a listener
    throws is reported by the runtime and goes no further. *)
Definition dispatch (sock : WebSocket) (kind : EventKind)
  (body : string -> M unit) : M unit :=
  ls <- gets listeners ;;
  for_of (filter (listens sock kind) ls) (fun l =>
    try_catch (body (snd l)) (fun e => emit (Uncaught e))).

Definition step (ev : Event) : M unit :=
  match ev with
  | Request upgrade => GET upgrade ;; ret tt
  | SocketMessage sock data => dispatch sock OnMessage (fun _ => on_message data)
  | SocketClose sock => dispatch sock OnClose cleanup
  | SocketError sock => dispatch sock OnError cleanup
  | Tick => modify advance
  end.

Definition run (evs : list Event) : M unit := for_of evs step.

(** *** Vocabulary of the statements *)

(** What one iteration of the loop of [broadcast] does for a recipient. *)
Definition attempt (payload : string) (c : Connection) : list Effect :=
  if send_throws (conn_socket c) payload
  then [Send (conn_socket c) payload true; ConsoleError "Broadcast failed"]
  else [Send (conn_socket c) payload false].

(** The connections a broadcast is meant for: all but the one whose id
    is the exclude id. *)
Definition recipients (options : option BroadcastOptions)
  (cs : list Connection) : list Connection :=
  match options with
  | Some {| exclude := Some e |} =>
      filter (fun c => negb (String.eqb (conn_id c) e)) cs
  | _ => cs
  end.

Definition fan_out (payload : string) (cs : list Connection) : list Effect :=
  flat_map (attempt payload) cs.

(** The effects of [broadcast data] towards all of [cs]. *)
Definition announce (data : Json) (cs : JsMap.t Connection) : list Effect :=
  Stringify data :: fan_out (JSON_stringify data) (JsMap.values cs).

(** Projections of a log. *)
Definition sends (t : list Effect) : list (WebSocket * string) :=
  flat_map (fun e => match e with
                     | Send sock payload _ => [(sock, payload)]
                     | _ => []
                     end) t.

Definition stringified (t : list Effect) : list Json :=
  flat_map (fun e => match e with Stringify d => [d] | _ => [] end) t.

Definition appended (t : list Effect) : list ChatMessage :=
  flat_map (fun e => match e with HistoryAppend m => [m] | _ => [] end) t.

(** The last [n] elements of a list. *)
Definition lastn {A : Type} (n : nat) (l : list A) : list A :=
  skipn (length l - n) l.

(** The [type] field of a JSON object. *)
Definition event_type (d : Json) : option string :=
  match d with
  | JObject fields =>
      match assoc "type" fields with
      | Some (JString s) => Some s
      | _ => None
      end
  | _ => None
  end.

Definition is_presence (d : Json) : bool :=
  match event_type d with
  | Some ty => String.eqb ty "presence"
  | None => false
  end.

Definition server_event (d : Json) : Prop :=
  event_type d = Some "history" \/ event_type d = Some "message"
  \/ event_type d = Some "presence".

(** The state and the log a computation ends with. *)
Definition state_of {A : Type} (x : Result A * State * list Effect) : State :=
  snd (fst x).

Definition log_of {A : Type} (x : Result A * State * list Effect)
  : list Effect := snd x.

Definition result_of {A : Type} (x : Result A * State * list Effect)
  : Result A := fst (fst x).

(** States the event loop can be in. *)
Inductive reachable : State -> Prop :=
| reachable_initial : reachable initial
| reachable_step : forall ev s,
    reachable s -> reachable (state_of (step ev s)).

(** The attempt of [GET] to send the history to the new socket. *)
Definition history_attempt (server : WebSocket) (messages : list ChatMessage)
  : list Effect :=
  let payload := JSON_stringify (history_event messages) in
  [Stringify (history_event messages);
   Send server payload (send_throws server payload)]
  ++ (if send_throws server payload
      then [ConsoleError "Failed to send history"] else []).

(** The state [GET] leaves behind when it accepts a socket. *)
Definition accepted_state (s : State) : State :=
  let server := pairs s in
  let id := randomUUID (drawn s) in
  add_listener server OnError id
    (add_listener server OnClose id
      (add_listener server OnMessage id
        (with_connections
           (JsMap.set id {| conn_id := id; conn_socket := server |})
           (next_draw (next_pair s))))).

(** Lines 107 and 108 on the contents of the store. *)
Definition append_and_trim (h : list ChatMessage) (m : ChatMessage)
  : list ChatMessage :=
  if 200 <? length (h ++ [m])
  then Js.Array_slice (h ++ [m]) (-200) None
  else h ++ [m].

Definition pruned_state (s : State) : State :=
  if 200 <? length (store s)
  then assign_history (Js.Array_slice (store s) (-200) None) s
  else s.

Definition pruned_log (s : State) : list Effect :=
  if 200 <? length (store s) then [HistoryPrune] else [].

(** The state after a chat message [m] went through lines 99 to 110. *)
Definition stored_state (m : ChatMessage) (s : State) : State :=
  pruned_state (assign_history (store s ++ [m]) (next_draw s)).

(** What the [message] listener makes of an event. *)
Inductive Verdict : Type :=
| Ignored (logged : bool)
| Crashed (after_draw : bool)
| Accepted (text : string) (alias color : option Json).

Definition field (k : string) (data : Json) : option Json :=
  match data with
  | JObject fields => assoc k fields
  | _ => None
  end.

(** [Some] of the value of [v?.slice(0, n)], [None] when it throws. *)
Definition sliced (v : option Json) (n : Z) : option (option Json) :=
  match v with
  | None => Some None
  | Some JNull => Some None
  | Some (JString s) => Some (Some (JString (Js.String_slice s 0 n)))
  | Some (JArray items) => Some (Some (JArray (Js.Array_slice items 0 (Some n))))
  | Some _ => None
  end.

Definition verdict (event_data : MessageData) : Verdict :=
  match event_data with
  | Binary => Ignored false
  | Text str =>
      match JSON_parse str with
      | None => Ignored true
      | Some JNull => Crashed false
      | Some data =>
          if is_not_message (field "type" data) then Ignored false
          else if negb (truthy (field "text" data)) then Ignored false
          else match field "text" data with
               | Some (JString t) =>
                   if String.eqb (Js.trim t) "" then Ignored false
                   else match sliced (field "alias" data) 48,
                              sliced (field "color" data) 64 with
                        | Some a, Some c =>
                            Accepted (Js.String_slice (Js.trim t) 0 480) a c
                        | _, _ => Crashed true
                        end
               | _ => Crashed false
               end
      end
  end.

(** The message lines 99 to 105 build in state [s]. *)
Definition built_message (text : string) (alias color : option Json)
  (s : State) : ChatMessage :=
  {| msg_id := randomUUID (drawn s);
     msg_text := text;
     msg_alias := or_else alias (JString "Anonymous");
     msg_color := or_else color (JString "bg-slate-100 text-slate-900");
     msg_sentAt := toISOString (clock s) |}.

(** Relations between the state before, the state after and the log of a
    computation that compose along sequencing. *)
Definition Rel : Type := State -> State -> list Effect -> Prop.

Class Chain (R : Rel) : Prop := {
  chain_nil : forall s, R s s [];
  chain_app : forall s1 s2 s3 t1 t2,
    R s1 s2 t1 -> R s2 s3 t2 -> R s1 s3 (t1 ++ t2)
}.

Definition respects {A : Type} (R : Rel) (m : M A) : Prop :=
  forall s, R s (state_of (m s)) (log_of (m s)).

(** The store follows the appends of the log. *)
Definition store_rel : Rel :=
  fun s s' t =>
    length (store s) <= 200 ->
    store s' = fold_left append_and_trim (appended t) (store s)
    /\ length (store s') <= 200.

(** Arrays are only ever added. *)
Definition heap_rel : Rel :=
  fun s s' _ => exists more, arrays s' = arrays s ++ more.

(** Every payload handed to [send] is a serialised server event. *)
Definition server_payload (p : WebSocket * string) : Prop :=
  exists d, server_event d /\ snd p = JSON_stringify d.

Definition sends_rel : Rel :=
  fun _ _ t => Forall server_payload (sends t).

(** Identifiers a state holds, and the well-formedness the event loop
    maintains: [history] is a valid reference, every key of the registry
    is the id of its connection, and every identifier held was drawn. *)
Definition held_ids (s : State) : list string :=
  JsMap.keys (connections s) ++ map msg_id (concat (arrays s)).

Definition wf (s : State) : Prop :=
  history s < length (arrays s)
  /\ (forall k c, In (k, c) (connections s) -> conn_id c = k)
  /\ (forall id, In id (held_ids s) ->
        exists n, n < drawn s /\ id = randomUUID n).

Definition wf_rel : Rel := fun s s' _ => wf s -> wf s' /\ drawn s <= drawn s'.

(** Positions in a log. *)
Fixpoint index_where (p : Effect -> bool) (t : list Effect) : option nat :=
  match t with
  | [] => None
  | e :: rest =>
      if p e then Some 0
      else match index_where p rest with
           | Some i => Some (S i)
           | None => None
           end
  end.

Definition is_send (e : Effect) : bool :=
  match e with Send _ _ _ => true | _ => false end.

Definition is_map_set (e : Effect) : bool :=
  match e with MapSet _ => true | _ => false end.

(** The effect that follows the first effect satisfying [p]. *)
Fixpoint next_after (p : Effect -> bool) (t : list Effect) : option Effect :=
  match t with
  | [] => None
  | e :: rest => if p e then hd_error rest else next_after p rest
  end.

(** The orders of the connect steps that the statements compare: a
    presence event serialised right after the registration, and a first
    [send] (the history) that comes before the registration. *)
Definition announced_right_after_register (t : list Effect) : Prop :=
  exists d, next_after is_map_set t = Some (Stringify d) /\ is_presence d = true.

Definition history_sent_before_register (t : list Effect) : Prop :=
  exists i j,
    index_where is_send t = Some i /\ index_where is_map_set t = Some j
    /\ i < j.

Definition registered_before_history_sent (t : list Effect) : Prop :=
  exists i j,
    index_where is_map_set t = Some i /\ index_where is_send t = Some j
    /\ i < j.

(** A log without any [send]. *)
Definition silent (t : list Effect) : Prop := sends t = [].

(** The first [n] code units of a string, and the clamping of an optional
    field with its fallback, as the data model words it: at most [n]
    characters, the fallback when the field is absent or empty. *)
Definition truncate (n : nat) (s : string) : string := substring 0 n s.

Definition clamp (n : nat) (fallback : string) (v : option string) : string :=
  match v with
  | Some a => if String.eqb a "" then fallback else truncate n a
  | None => fallback
  end.



(** What the [message] listener does, by verdict. *)
Definition message_outcome (v : Verdict) (s : State)
  : Result unit * State * list Effect :=
  match v with
  | Ignored logged =>
      (Return tt, s, if logged then [ConsoleError "Invalid payload"] else [])
  | Crashed false => (Throw TypeError, s, [])
  | Crashed true =>
      (Throw TypeError, next_draw s, [RandomUUID (randomUUID (drawn s))])
  | Accepted text alias color =>
      let m := built_message text alias color s in
      (Return tt, stored_state m s,
       [RandomUUID (msg_id m); DateNow (msg_sentAt m); HistoryAppend m]
       ++ pruned_log (assign_history (store s ++ [m]) (next_draw s))
       ++ announce (message_event m) (connections s))
  end.

(** The log of [GET] when it accepts a socket. *)
Definition accepted_log (s : State) : list Effect :=
  let server := pairs s in
  let id := randomUUID (drawn s) in
  let cs := JsMap.set id {| conn_id := id; conn_socket := server |}
              (connections s) in
  [NewWebSocketPair server; RandomUUID id; Accept server; MapSet id]
  ++ history_attempt server (store s)
  ++ announce (presence_event (JsMap.size cs)) cs
  ++ [AddEventListener server OnMessage; AddEventListener server OnClose;
      AddEventListener server OnError].

(** A value whose [slice] is not a function: a number, a boolean or an
    object ([null] and [undefined] stop the optional chain, strings and
    arrays have the method). *)
Definition not_sliceable (v : option Json) : Prop :=
  match v with
  | Some (JBool _) | Some (JNumber _) | Some (JObject _) => True
  | _ => False
  end.

(** A string or absent, as [ClientMessage] declares [alias] and [color]. *)
Definition string_or_absent (v : option Json) : Prop :=
  match v with
  | None | Some (JString _) => True
  | _ => False
  end.

(** The sockets of the registered connections, in registry order. *)
Definition sockets_of (cs : JsMap.t Connection) : list WebSocket :=
  map conn_socket (JsMap.values cs).

(** The listeners of socket [k] were attached by the [GET] that drew
    [id]: one listener for each kind of event, all three closed over
    [id]. *)
Definition listener_of (s : State) (k : WebSocket) (id : string) : Prop :=
  forall kind, filter (listens k kind) (listeners s) = [(k, kind, id)].

(** What the event loop maintains about the registry and the listeners. *)
Definition registry_ok (s : State) : Prop :=
  NoDup (JsMap.keys (connections s))
  /\ NoDup (sockets_of (connections s))
  /\ (forall key c, In (key, c) (connections s) ->
        conn_id c = key /\ conn_socket c < pairs s
        /\ listener_of s (conn_socket c) key)
  /\ (forall k kind id, In (k, kind, id) (listeners s) -> k < pairs s)
  /\ (forall k, k < pairs s -> exists id, listener_of s k id).

Definition registry_rel : Rel :=
  fun s s' _ => registry_ok s -> registry_ok s'.

(** The shape of a stored chat message: a text of 1 to 480 characters
    that starts with a character other than white space; an alias and a
    color that are non-empty strings of at most 48 and 64 characters, or
    arrays of at most as many elements. *)
Definition text_ok (t : string) : Prop :=
  1 <= String.length t <= 480
  /\ exists c r, t = String c r /\ Js.is_white_space c = false.

Definition tag_ok (n : nat) (j : Json) : Prop :=
  (exists a, j = JString a /\ 1 <= String.length a <= n)
  \/ (exists items, j = JArray items /\ length items <= n).

Definition message_ok (m : ChatMessage) : Prop :=
  text_ok (msg_text m) /\ tag_ok 48 (msg_alias m) /\ tag_ok 64 (msg_color m).

Definition shape_rel : Rel :=
  fun s s' _ => Forall message_ok (store s) -> Forall message_ok (store s').

(** Identifiers are not shared: the messages of the store have pairwise
    different ids, none of which is the key of a connection. *)
Definition ids_apart (s : State) : Prop :=
  wf s
  /\ NoDup (map msg_id (store s))
  /\ (forall m, In m (store s) ->
        ~ In (msg_id m) (JsMap.keys (connections s))).

Definition ids_rel : Rel := fun s s' _ => ids_apart s -> ids_apart s'.

(** *** The page: the client component [Home] and its helpers

    The component keeps its state with [useState]; a handler does not
    write the state, it calls setters, which are logged here in the order
    of the calls and applied afterwards. *)

Definition adjectives : list string :=
  ["Brave"; "Calm"; "Curious"; "Gentle"; "Bold"; "Clever"; "Happy"; "Kind";
   "Mellow"; "Quick"; "Quiet"; "Swift"; "Witty"].

Definition animals : list string :=
  ["Otter"; "Fox"; "Fawn"; "Robin"; "Lynx"; "Swan"; "Panda"; "Hare";
   "Koala"; "Owl"; "Wolf"; "Seal"; "Koi"].

Definition palette : list string :=
  ["bg-blue-100 text-blue-900"; "bg-emerald-100 text-emerald-900";
   "bg-amber-100 text-amber-900"; "bg-purple-100 text-purple-900";
   "bg-rose-100 text-rose-900"; "bg-slate-100 text-slate-900";
   "bg-teal-100 text-teal-900"].

(** What a template literal prints for an element read from an array of
    strings: the string, or [undefined] off the end. *)
Definition interpolate (v : option string) : string :=
  match v with
  | Some s => s
  | None => "undefined"
  end.

(** The seed is a natural number, as [randomSeed] produces. *)
Definition buildAlias (seed : nat) : string :=
  let adjective := nth_error adjectives (seed mod length adjectives) in
  let animal := nth_error animals (seed mod length animals) in
  (interpolate adjective ++ " " ++ interpolate animal)%string.

Definition buildColor (seed : nat) : option string :=
  nth_error palette (seed mod length palette).

(** [useMemo(() => ({ alias, colorClass }))]. *)
Record Persona : Type := mkPersona {
  alias : string;
  colorClass : option string
}.

Definition build_persona (seed : nat) : Persona :=
  {| alias := buildAlias seed; colorClass := buildColor seed |}.

(** [WebSocket.readyState]. *)
Inductive ReadyState : Type := CONNECTING | OPEN | CLOSING | CLOSED.

(** The client's end of the socket: its state, and whether [send] throws
    for a payload. *)
Record ClientSocket : Type := mkClientSocket {
  readyState : ReadyState;
  send_fails : string -> bool
}.

(** A value of the page that may be [undefined], or an array with
    [undefined] elements. *)
Inductive JsVal : Type :=
| VUndefined
| VJson (j : Json)
| VList (items : list (option Json)).

Definition val_of (v : option Json) : JsVal :=
  match v with
  | Some j => VJson j
  | None => VUndefined
  end.

(** The state and the refs of [Home]. *)
Record Page : Type := mkPage {
  messages : JsVal;
  onlineCount : option Json;
  pending : bool;
  socketReady : bool;
  input : string;
  socketRef : option ClientSocket;
  persona : Persona
}.

(** The first render: [useState([])], [useState(1)], ... *)
Definition first_page (seed : nat) : Page :=
  {| messages := VList [];
     onlineCount := Some (JNumber 1);
     pending := false;
     socketReady := false;
     input := "";
     socketRef := None;
     persona := build_persona seed |}.

(** What a handler of the page does, in order. *)
Inductive PageEffect : Type :=
| PreventDefault
| SetMessages (v : option Json)
| AppendMessage (message : option Json)
| SetOnlineCount (v : option Json)
| SetPending (b : bool)
| SetSocketReady (b : bool)
| SetInput (s : string)
| PageStringify (data : Json)
| PageSend (payload : string) (threw : bool)
| PageConsoleError (label : string).

(** Handlers of the page only log: a result and the effects so far. *)
Definition P (A : Type) : Type := Result A * list PageEffect.

Definition pret {A : Type} (a : A) : P A := (Return a, []).

Definition pbind {A B : Type} (m : P A) (f : A -> P B) : P B :=
  match m with
  | (Return a, t1) => match f a with (r, t2) => (r, t1 ++ t2) end
  | (Throw e, t1) => (Throw e, t1)
  end.

Definition pthrow {A : Type} (e : JsError) : P A := (Throw e, []).

Definition perform (e : PageEffect) : P unit := (Return tt, [e]).

(** [try { m } catch (error) { h }] and [try { m } finally { f }]. *)
Definition ptry_catch {A : Type} (m : P A) (h : JsError -> P A) : P A :=
  match m with
  | (Return a, t1) => (Return a, t1)
  | (Throw e, t1) => match h e with (r, t2) => (r, t1 ++ t2) end
  end.

Definition ptry_finally {A : Type} (m : P A) (f : P unit) : P A :=
  match m, f with
  | (r, t1), (Return _, t2) => (r, t1 ++ t2)
  | (_, t1), (Throw e, t2) => (Throw e, t1 ++ t2)
  end.

(** [payload.k] on a parsed event, as [get_field] on the server. *)
Definition page_field (k : string) (data : Json) : P (option Json) :=
  match data with
  | JNull => pthrow TypeError
  | JObject fields => pret (assoc k fields)
  | _ => pret None
  end.

(** [v === "tag"] *)
Definition is_tag (tag : string) (v : option Json) : bool :=
  match v with
  | Some (JString s) => String.eqb s tag
  | _ => false
  end.

(** [JSON.parse(event.data as string)]: binary data is turned into a
    string that is not JSON. *)
Definition page_parse (event_data : MessageData) : P Json :=
  match event_data with
  | Binary => pthrow SyntaxError
  | Text str =>
      match JSON_parse str with
      | Some v => pret v
      | None => pthrow SyntaxError
      end
  end.

(** The three [if]s of the [message] listener on a parsed payload. *)
Definition on_payload (payload : Json) : P unit :=
  pbind (page_field "type" payload) (fun type =>
  pbind (if is_tag "history" type
         then pbind (page_field "messages" payload) (fun v =>
              perform (SetMessages v))
         else pret tt) (fun _ =>
  pbind (page_field "type" payload) (fun type =>
  pbind (if is_tag "message" type
         then pbind (page_field "message" payload) (fun v =>
              perform (AppendMessage v))
         else pret tt) (fun _ =>
  pbind (page_field "type" payload) (fun type =>
  if is_tag "presence" type
  then pbind (page_field "count" payload) (fun v =>
       perform (SetOnlineCount v))
  else pret tt))))).

(** The listener of the page for [message] events. *)
Definition on_server_event (event_data : MessageData) : P unit :=
  ptry_catch
    (pbind (page_parse event_data) on_payload)
    (fun _ => perform (PageConsoleError "Failed to parse server event")).

(** The listeners for [open] and [close]. *)
Definition on_open : P unit := perform (SetSocketReady true).

Definition on_close : P unit :=
  pbind (perform (SetSocketReady false)) (fun _ =>
  perform (SetOnlineCount (Some (JNumber 0)))).

(** The payload that [handleSubmit] builds. *)
Definition submit_payload (page : Page) : Json :=
  JObject
    ([ ("type", JString "message");
       ("text", JString (Js.String_slice (Js.trim (input page)) 0 480));
       ("alias", JString (alias (persona page))) ]
     ++ match colorClass (persona page) with
        | Some c => [("color", JString c)]
        | None => []
        end).

Definition page_send (ws : ClientSocket) (payload : string) : P unit :=
  if send_fails ws payload
  then pbind (perform (PageSend payload true)) (fun _ => pthrow SendError)
  else perform (PageSend payload false).

Definition handleSubmit (page : Page) : P unit :=
  pbind (perform PreventDefault) (fun _ =>
  if String.eqb (Js.trim (input page)) "" then pret tt else
  match socketRef page with
  | None => pret tt
  | Some ws =>
      match readyState ws with
      | OPEN =>
          (let payload := submit_payload page in
           ptry_finally
             (pbind (perform (SetPending true)) (fun _ =>
              pbind (perform (PageStringify payload)) (fun _ =>
              pbind (page_send ws (JSON_stringify payload)) (fun _ =>
              perform (SetInput "")))))
             (perform (SetPending false)))
      | _ => pret tt
      end
  end).

(** The elements a spread [...v] yields: those of an array, the
    characters of a string; nothing else is iterable. *)
Definition elements (v : JsVal) : option (list (option Json)) :=
  match v with
  | VList items => Some items
  | VJson (JArray items) => Some (map Some items)
  | VJson (JString s) =>
      Some (map (fun c => Some (JString (String c ""))) (list_ascii_of_string s))
  | _ => None
  end.

(** How a logged setter changes the page; [None] when the updater
    [(prev) => [...prev, payload.message]] throws. *)
Definition apply_effect (e : PageEffect) (page : Page) : option Page :=
  match e with
  | SetMessages v =>
      Some {| messages := val_of v; onlineCount := onlineCount page;
              pending := pending page; socketReady := socketReady page;
              input := input page; socketRef := socketRef page;
              persona := persona page |}
  | AppendMessage m =>
      match elements (messages page) with
      | Some items =>
          Some {| messages := VList (items ++ [m]);
                  onlineCount := onlineCount page;
                  pending := pending page; socketReady := socketReady page;
                  input := input page; socketRef := socketRef page;
                  persona := persona page |}
      | None => None
      end
  | SetOnlineCount v =>
      Some {| messages := messages page; onlineCount := v;
              pending := pending page; socketReady := socketReady page;
              input := input page; socketRef := socketRef page;
              persona := persona page |}
  | SetPending b =>
      Some {| messages := messages page; onlineCount := onlineCount page;
              pending := b; socketReady := socketReady page;
              input := input page; socketRef := socketRef page;
              persona := persona page |}
  | SetSocketReady b =>
      Some {| messages := messages page; onlineCount := onlineCount page;
              pending := pending page; socketReady := b;
              input := input page; socketRef := socketRef page;
              persona := persona page |}
  | SetInput s =>
      Some {| messages := messages page; onlineCount := onlineCount page;
              pending := pending page; socketReady := socketReady page;
              input := s; socketRef := socketRef page;
              persona := persona page |}
  | _ => Some page
  end.

Fixpoint apply_effects (t : list PageEffect) (page : Page) : option Page :=
  match t with
  | [] => Some page
  | e :: rest =>
      match apply_effect e page with
      | Some page' => apply_effects rest page'
      | None => None
      end
  end.

(** The page after the listener ran for each of the payloads received. *)
Fixpoint receive_all (payloads : list string) (page : Page) : option Page :=
  match payloads with
  | [] => Some page
  | p :: rest =>
      match apply_effects (snd (on_server_event (Text p))) page with
      | Some page' => receive_all rest page'
      | None => None
      end
  end.

(** The payloads a socket was sent without a failure, in order. *)
Definition received (k : WebSocket) (t : list Effect) : list string :=
  flat_map (fun e => match e with
                     | Send sock payload false =>
                         if sock =? k then [payload] else []
                     | _ => []
                     end) t.

(** The payloads a handler of the page passed to [send]. *)
Definition page_sends (t : list PageEffect) : list (string * bool) :=
  flat_map (fun e => match e with
                     | PageSend payload threw => [(payload, threw)]
                     | _ => []
                     end) t.

(** A log of the listener of the page: nothing, or one setter, or the
    report of the error. *)
Definition one_update (t : list PageEffect) : Prop :=
  t = []
  \/ (exists v, t = [SetMessages v])
  \/ (exists v, t = [AppendMessage v])
  \/ (exists v, t = [SetOnlineCount v])
  \/ t = [PageConsoleError "Failed to parse server event"].

(** Every listener is closed over an identifier that was drawn, and two
    sockets never share one. *)
Definition listeners_apart (s : State) : Prop :=
  (forall k kind id, In (k, kind, id) (listeners s) ->
     exists n, n < drawn s /\ id = randomUUID n)
  /\ (forall k k' kind kind' id,
        In (k, kind, id) (listeners s) -> In (k', kind', id) (listeners s) ->
        k = k').

Definition listeners_rel : Rel :=
  fun s s' _ => listeners_apart s -> listeners_apart s'.

(** The page shows the messages [shown] and the size of the registry to
    the client on socket [k], which is registered, and the store holds
    the last 200 of the messages shown. *)
Definition in_sync (k : WebSocket) (s : State) (page : Page)
  (shown : list ChatMessage) : Prop :=
  In k (sockets_of (connections s))
  /\ elements (messages page)
     = Some (map (fun m => Some (json_of_message m)) shown)
  /\ onlineCount page
     = Some (JNumber (inject_Z (Z.of_nat (JsMap.size (connections s)))))
  /\ store s = lastn 200 shown.

(** What the event loop maintains, taken together. *)
Definition settled (s : State) : Prop :=
  registry_ok s /\ wf s /\ listeners_apart s /\ length (store s) <= 200.

(** *** Equations of the helpers *)

Lemma store_assign_history (a : list ChatMessage) (s : State) :
  store (assign_history a s) = a.
Proof using Type.
  unfold store, deref, assign_history; cbn.
  rewrite app_nth2 by lia. now rewrite Nat.sub_diag.
Qed.

Lemma broadcast_loop (payload : string) (options : option BroadcastOptions)
  (cs : list Connection) (s : State) :
  for_of cs (fun connection =>
    if excluded options connection then ret tt
    else try_catch (socket_send (conn_socket connection) payload)
                   (fun _ => console_error "Broadcast failed")) s
  = (Return tt, s,
     fan_out payload (filter (fun c => negb (excluded options c)) cs)).
Proof.
  induction cs as [|c cs IH]; cbn [for_of filter].
  - reflexivity.
  - set (loop := for_of cs _) in *.
    unfold bind, try_catch, socket_send, console_error, emit, throw, ret.
    unfold fan_out in *.
    destruct (excluded options c); cbn [negb flat_map].
    + rewrite IH. reflexivity.
    + unfold attempt at 1.
      destruct (send_throws (conn_socket c) payload); cbn;
        rewrite IH; reflexivity.
Qed.

Lemma broadcast_eq (data : Json) (options : option BroadcastOptions)
  (s : State) :
  broadcast data options s
  = (Return tt, s,
     Stringify data ::
     fan_out (JSON_stringify data)
       (filter (fun c => negb (excluded options c))
               (JsMap.values (connections s)))).
Proof.
  unfold broadcast, stringify, gets, emit, ret, bind at 1 2 3; cbn.
  rewrite broadcast_loop. reflexivity.
Qed.

Lemma filter_all {A : Type} (l : list A) : filter (fun _ => true) l = l.
Proof using Type. induction l; cbn; congruence. Qed.

Lemma broadcast_all_eq (data : Json) (s : State) :
  broadcast data None s = (Return tt, s, announce data (connections s)).
Proof.
  rewrite broadcast_eq. unfold announce. cbn [excluded negb].
  now rewrite filter_all.
Qed.

Lemma excluded_recipients (options : option BroadcastOptions)
  (cs : list Connection) :
  (forall c, In c cs -> conn_id c <> "") ->
  filter (fun c => negb (excluded options c)) cs = recipients options cs.
Proof.
  intros Hid. unfold recipients, excluded.
  destruct options as [[[e|]]|]; cbn; try apply filter_all.
  apply filter_ext_in. intros c Hc.
  destruct (String.eqb_spec (conn_id c) e) as [E|E];
    [|now rewrite andb_false_r].
  destruct (String.eqb_spec e "") as [E'|E']; [|reflexivity].
  apply Hid in Hc. congruence.
Qed.

Lemma registerPresence_eq (s : State) :
  registerPresence s
  = (Return tt, s,
     announce (presence_event (JsMap.size (connections s))) (connections s)).
Proof.
  unfold registerPresence, gets, bind; cbn -[broadcast].
  now rewrite broadcast_all_eq.
Qed.

Lemma cleanup_eq (connectionId : string) (s : State) :
  cleanup connectionId s
  = (Return tt,
     with_connections (JsMap.delete connectionId) s,
     MapDelete connectionId ::
     announce
       (presence_event
          (JsMap.size (JsMap.delete connectionId (connections s))))
       (JsMap.delete connectionId (connections s))).
Proof.
  unfold cleanup, emit, modify, bind; cbn -[registerPresence].
  now rewrite registerPresence_eq.
Qed.

Lemma GET_refused (upgrade : option string) (s : State) :
  no_upgrade upgrade = true ->
  GET upgrade s = (Return (mkResponse 426 None), s, []).
Proof. intros H. unfold GET. now rewrite H. Qed.

Lemma GET_eq (upgrade : option string) (s : State) :
  no_upgrade upgrade = false ->
  GET upgrade s
  = (Return (mkResponse 101 (Some (client_of (pairs s)))), accepted_state s,
     accepted_log s).
Proof.
  intros H. unfold GET. rewrite H.
  unfold bind, try_catch, new_WebSocketPair, crypto_randomUUID, stringify,
    socket_send, console_error, addEventListener, emit, modify, gets, throw,
    ret, bind.
  cbn -[registerPresence store].
  unfold accepted_log, history_attempt.
  change (store (with_connections _ (next_draw (next_pair s))))
    with (store s).
  destruct (send_throws (pairs s) (JSON_stringify (history_event (store s))));
    cbn -[registerPresence store]; rewrite registerPresence_eq; reflexivity.
Qed.

Lemma pruneHistory_eq (s : State) :
  pruneHistory s = (Return tt, pruned_state s, pruned_log s).
Proof.
  unfold pruneHistory, pruned_state, pruned_log, bind, gets, emit, modify.
  cbn -[Nat.ltb store Js.Array_slice].
  destruct (200 <? length (store s)); reflexivity.
Qed.

Lemma connections_pruned_state (s : State) :
  connections (pruned_state s) = connections s.
Proof. unfold pruned_state. now destruct (200 <? length (store s)). Qed.

Lemma on_message_eq (event_data : MessageData) (s : State) :
  on_message event_data s = message_outcome (verdict event_data) s.
Proof.
  destruct event_data as [|str]; [reflexivity|].
  unfold on_message, verdict, parse.
  destruct (JSON_parse str) as [data|]; [|reflexivity].
  unfold bind at 1. unfold try_catch, bind at 1, ret at 1 2.
  destruct data as [ | b | q | str' | items | fields];
    try reflexivity.
  unfold get_field, field, bind at 1, ret at 1.
  destruct (is_not_message (assoc "type" fields)); [reflexivity|].
  unfold bind at 1, ret at 1.
  destruct (truthy (assoc "text" fields)) eqn:Htext; [|reflexivity].
  cbn [negb].
  destruct (assoc "text" fields) as [[ | b | q | t | items | fs]|];
    try reflexivity.
  unfold call_trim, bind at 1, ret at 1.
  destruct (String.eqb (Js.trim t) ""); [reflexivity|].
  unfold crypto_randomUUID, bind at 1.
  unfold bind at 1, ret at 1.
  unfold optional_slice at 1, sliced at 1.
  destruct (assoc "alias" fields) as [[ | b | q | a | items | fs]|];
    try reflexivity.
  all: unfold bind at 1; unfold bind at 1, ret at 1.
  all: unfold optional_slice at 1, sliced at 1.
  all: destruct (assoc "color" fields) as [[ | b | q | c | items' | fs]|];
    try reflexivity.
  all: unfold new_Date_toISOString, gets, emit, modify, bind, ret.
  all: cbn -[Nat.ltb store Js.Array_slice Js.String_slice Js.trim
              pruneHistory broadcast].
  all: rewrite pruneHistory_eq.
  all: cbn -[Nat.ltb store Js.Array_slice Js.String_slice Js.trim
              pruned_state pruned_log broadcast].
  all: rewrite broadcast_all_eq.
  all: unfold stored_state, built_message.
  all: cbn -[Nat.ltb store Js.Array_slice Js.String_slice Js.trim
              pruned_state pruned_log announce].
  all: rewrite connections_pruned_state; reflexivity.
Qed.

(** *** Lists and slices *)

Lemma Array_slice_last {A : Type} (n : nat) (l : list A) :
  0 < n -> Js.Array_slice l (- Z.of_nat n) None = lastn n l.
Proof using Type.
  intros Hn. unfold Js.Array_slice, Js.relative_index, lastn.
  destruct (Z.ltb_spec (- Z.of_nat n) 0) as [_|]; [|lia].
  replace (Z.to_nat (Z.max (Z.of_nat (length l) + - Z.of_nat n) 0))
    with (length l - n) by lia.
  apply firstn_all2. rewrite length_skipn. lia.
Qed.

Lemma append_and_trim_lastn (h : list ChatMessage) (m : ChatMessage) :
  append_and_trim h m = lastn 200 (h ++ [m]).
Proof using Type.
  unfold append_and_trim.
  destruct (Nat.ltb_spec 200 (length (h ++ [m]))) as [Hlt|Hle].
  - change (-200)%Z with (- Z.of_nat 200)%Z. apply Array_slice_last. lia.
  - unfold lastn. replace (length (h ++ [m]) - 200) with 0 by lia.
    reflexivity.
Qed.

Lemma lastn_length {A : Type} (n : nat) (l : list A) :
  length (lastn n l) <= n.
Proof using Type. unfold lastn. rewrite length_skipn. lia. Qed.

Lemma lastn_snoc {A : Type} (n : nat) (l : list A) (x : A) :
  lastn n (lastn n l ++ [x]) = lastn n (l ++ [x]).
Proof using Type.
  unfold lastn.
  assert (E : skipn (length l - n) l ++ [x]
              = skipn (length l - n) (l ++ [x])).
  { rewrite skipn_app.
    replace (length l - n - length l) with 0 by lia. reflexivity. }
  rewrite E, skipn_skipn. f_equal.
  rewrite length_skipn, !length_app. cbn. lia.
Qed.

Lemma fold_append_and_trim (msgs all : list ChatMessage) :
  fold_left append_and_trim msgs (lastn 200 all) = lastn 200 (all ++ msgs).
Proof using Type.
  revert all. induction msgs as [|m msgs IH]; intros all; cbn [fold_left].
  - now rewrite app_nil_r.
  - rewrite append_and_trim_lastn, lastn_snoc, IH, <- app_assoc.
    reflexivity.
Qed.

(** *** Composing relations along the code *)

Section Composition.

Variable R : Rel.
Context {chain : Chain R}.

Lemma respects_ret {A : Type} (a : A) : respects R (ret a).
Proof. intros s. apply chain_nil. Qed.

Lemma respects_bind {A B : Type} (m : M A) (f : A -> M B) :
  respects R m -> (forall a, respects R (f a)) -> respects R (bind m f).
Proof.
  intros Hm Hf s. specialize (Hm s). unfold bind, state_of, log_of in *.
  destruct (m s) as [[[a|e] s1] t1]; cbn in *; [|exact Hm].
  specialize (Hf a s1). unfold state_of, log_of in Hf.
  destruct (f a s1) as [[r s2] t2]; cbn in *.
  eapply chain_app; eassumption.
Qed.

Lemma respects_try_catch {A : Type} (m : M A) (h : JsError -> M A) :
  respects R m -> (forall e, respects R (h e)) ->
  respects R (try_catch m h).
Proof.
  intros Hm Hh s. specialize (Hm s).
  unfold try_catch, state_of, log_of in *.
  destruct (m s) as [[[a|e] s1] t1]; cbn in *; [exact Hm|].
  specialize (Hh e s1). unfold state_of, log_of in Hh.
  destruct (h e s1) as [[r s2] t2]; cbn in *.
  eapply chain_app; eassumption.
Qed.

Lemma respects_for_of {A : Type} (xs : list A) (body : A -> M unit) :
  (forall x, respects R (body x)) -> respects R (for_of xs body).
Proof.
  intros Hbody. induction xs as [|x xs IH]; cbn [for_of].
  - apply respects_ret.
  - apply respects_bind; [apply Hbody | intros _; exact IH].
Qed.

Hypothesis respects_GET : forall upgrade, respects R (GET upgrade).
Hypothesis respects_on_message : forall d, respects R (on_message d).
Hypothesis respects_cleanup : forall id, respects R (cleanup id).
Hypothesis respects_uncaught : forall e s, R s s [Uncaught e].
Hypothesis respects_advance : forall s, R s (advance s) [].

Lemma respects_dispatch (sock : WebSocket) (kind : EventKind)
  (body : string -> M unit) :
  (forall id, respects R (body id)) -> respects R (dispatch sock kind body).
Proof.
  intros Hbody. unfold dispatch.
  apply respects_bind; [intros s; apply chain_nil|]. intros ls.
  apply respects_for_of. intros l.
  apply respects_try_catch; [apply Hbody|].
  intros e s. apply respects_uncaught.
Qed.

Lemma respects_step (ev : Event) : respects R (step ev).
Proof.
  destruct ev as [upgrade|sock data|sock|sock|]; cbn [step].
  - apply respects_bind; [apply respects_GET|].
    intros _. apply respects_ret.
  - apply respects_dispatch. intros _. apply respects_on_message.
  - apply respects_dispatch, respects_cleanup.
  - apply respects_dispatch, respects_cleanup.
  - intros s. apply respects_advance.
Qed.

Lemma respects_run (evs : list Event) : respects R (run evs).
Proof. apply respects_for_of, respects_step. Qed.

End Composition.

(** *** Projections of the logs of the helpers *)

Lemma appended_app (t1 t2 : list Effect) :
  appended (t1 ++ t2) = appended t1 ++ appended t2.
Proof. apply flat_map_app. Qed.

Lemma sends_app (t1 t2 : list Effect) : sends (t1 ++ t2) = sends t1 ++ sends t2.
Proof. apply flat_map_app. Qed.

Lemma stringified_app (t1 t2 : list Effect) :
  stringified (t1 ++ t2) = stringified t1 ++ stringified t2.
Proof. apply flat_map_app. Qed.

Lemma appended_fan_out (payload : string) (cs : list Connection) :
  appended (fan_out payload cs) = [].
Proof.
  induction cs as [|c cs IH]; [reflexivity|].
  unfold fan_out in *. cbn [flat_map]. rewrite appended_app, IH.
  unfold attempt. now destruct (send_throws (conn_socket c) payload).
Qed.

Lemma stringified_fan_out (payload : string) (cs : list Connection) :
  stringified (fan_out payload cs) = [].
Proof.
  induction cs as [|c cs IH]; [reflexivity|].
  unfold fan_out in *. cbn [flat_map]. rewrite stringified_app, IH.
  unfold attempt. now destruct (send_throws (conn_socket c) payload).
Qed.

Lemma sends_fan_out (payload : string) (cs : list Connection) :
  sends (fan_out payload cs) = map (fun c => (conn_socket c, payload)) cs.
Proof.
  induction cs as [|c cs IH]; [reflexivity|].
  unfold fan_out in *. cbn [flat_map map]. rewrite sends_app, IH.
  unfold attempt. now destruct (send_throws (conn_socket c) payload).
Qed.

Lemma appended_announce (data : Json) (cs : JsMap.t Connection) :
  appended (announce data cs) = [].
Proof. unfold announce. cbn. apply appended_fan_out. Qed.

Lemma stringified_announce (data : Json) (cs : JsMap.t Connection) :
  stringified (announce data cs) = [data].
Proof. unfold announce. cbn. now rewrite stringified_fan_out. Qed.

Lemma sends_announce (data : Json) (cs : JsMap.t Connection) :
  sends (announce data cs)
  = map (fun c => (conn_socket c, JSON_stringify data)) (JsMap.values cs).
Proof. unfold announce. cbn. apply sends_fan_out. Qed.

Lemma appended_pruned_log (s : State) : appended (pruned_log s) = [].
Proof. unfold pruned_log. now destruct (200 <? length (store s)). Qed.

Lemma appended_history_attempt (server : WebSocket) (h : list ChatMessage) :
  appended (history_attempt server h) = [].
Proof.
  unfold history_attempt.
  now destruct (send_throws server (JSON_stringify (history_event h))).
Qed.

Lemma appended_accepted_log (s : State) : appended (accepted_log s) = [].
Proof.
  unfold accepted_log. cbn [app appended flat_map].
  now rewrite !appended_app, appended_history_attempt, appended_announce.
Qed.

Lemma appended_message_outcome (v : Verdict) (s : State) :
  appended (log_of (message_outcome v s))
  = match v with
    | Accepted text alias color => [built_message text alias color s]
    | _ => []
    end.
Proof.
  destruct v as [[|]|[|]|text alias color]; try reflexivity.
  unfold message_outcome, log_of. cbn [snd app appended flat_map].
  now rewrite !appended_app, appended_pruned_log, appended_announce.
Qed.

(** *** The store *)

Lemma store_pruned_state (s : State) :
  store (pruned_state s)
  = if 200 <? length (store s)
    then Js.Array_slice (store s) (-200) None
    else store s.
Proof.
  unfold pruned_state. destruct (200 <? length (store s)); [|reflexivity].
  apply store_assign_history.
Qed.

Lemma store_stored_state (m : ChatMessage) (s : State) :
  store (stored_state m s) = append_and_trim (store s) m.
Proof.
  unfold stored_state. rewrite store_pruned_state, store_assign_history.
  reflexivity.
Qed.

#[local] Instance store_rel_chain : Chain store_rel.
Proof.
  split.
  - intros s Hs. split; [reflexivity | exact Hs].
  - intros s1 s2 s3 t1 t2 H12 H23 Hs.
    destruct (H12 Hs) as [E12 L2]. destruct (H23 L2) as [E23 L3].
    split; [|exact L3].
    now rewrite appended_app, fold_left_app, <- E12.
Qed.

Lemma store_rel_GET (upgrade : option string) : respects store_rel (GET upgrade).
Proof.
  intros s Hs. destruct (no_upgrade upgrade) eqn:Hu.
  - rewrite (GET_refused _ _ Hu). split; [reflexivity | exact Hs].
  - rewrite (GET_eq _ _ Hu). unfold state_of, log_of; cbn [fst snd].
    rewrite appended_accepted_log. split; [reflexivity | exact Hs].
Qed.

Lemma store_rel_cleanup (id : string) : respects store_rel (cleanup id).
Proof.
  intros s Hs. rewrite cleanup_eq. unfold state_of, log_of; cbn [fst snd].
  change (appended (MapDelete id :: ?t)) with (appended t).
  rewrite appended_announce. split; [reflexivity | exact Hs].
Qed.

Lemma store_rel_on_message (d : MessageData) : respects store_rel (on_message d).
Proof.
  intros s Hs. rewrite on_message_eq, appended_message_outcome.
  destruct (verdict d) as [[|]|[|]|text alias color];
    try (split; [reflexivity | exact Hs]).
  unfold message_outcome, state_of; cbn [fst snd fold_left].
  rewrite store_stored_state. split; [reflexivity|].
  rewrite append_and_trim_lastn. apply lastn_length.
Qed.

Lemma store_rel_run (evs : list Event) : respects store_rel (run evs).
Proof.
  apply respects_run; try typeclasses eauto.
  - apply store_rel_GET.
  - apply store_rel_on_message.
  - apply store_rel_cleanup.
  - intros e s Hs. split; [reflexivity | exact Hs].
  - intros s Hs. split; [reflexivity | exact Hs].
Qed.

(** *** Arrays are never written *)

#[local] Instance heap_rel_chain : Chain heap_rel.
Proof.
  split.
  - intros s. exists []. now rewrite app_nil_r.
  - intros s1 s2 s3 t1 t2 [m1 E1] [m2 E2]. exists (m1 ++ m2).
    now rewrite E2, E1, app_assoc.
Qed.

Lemma heap_rel_pruned_state (s : State) :
  exists more, arrays (pruned_state s) = arrays s ++ more.
Proof.
  unfold pruned_state. destruct (200 <? length (store s)).
  - now eexists.
  - exists []. now rewrite app_nil_r.
Qed.

Lemma heap_rel_on_message (d : MessageData) : respects heap_rel (on_message d).
Proof.
  intros s. rewrite on_message_eq. unfold heap_rel.
  destruct (verdict d) as [[|]|[|]|text alias color]; cbn;
    try (exists []; now rewrite app_nil_r).
  unfold state_of, stored_state; cbn [fst snd].
  destruct (heap_rel_pruned_state
              (assign_history
                 (store s ++ [built_message text alias color s])
                 (next_draw s))) as [more E].
  rewrite E. cbn. eexists. now rewrite <- app_assoc.
Qed.

Lemma heap_rel_run (evs : list Event) : respects heap_rel (run evs).
Proof.
  apply respects_run; try typeclasses eauto.
  - intros upgrade s. destruct (no_upgrade upgrade) eqn:Hu.
    + rewrite (GET_refused _ _ Hu). exists []. now rewrite app_nil_r.
    + rewrite (GET_eq _ _ Hu). exists []. now rewrite app_nil_r.
  - apply heap_rel_on_message.
  - intros id s. rewrite cleanup_eq. exists []. now rewrite app_nil_r.
  - intros e s. exists []. now rewrite app_nil_r.
  - intros s. exists []. now rewrite app_nil_r.
Qed.

(** *** What is sent *)

#[local] Instance sends_rel_chain : Chain sends_rel.
Proof.
  split.
  - intros s. constructor.
  - intros s1 s2 s3 t1 t2 H1 H2. unfold sends_rel in *.
    rewrite sends_app. apply Forall_app. now split.
Qed.

Lemma server_payload_announce (data : Json) (cs : JsMap.t Connection) :
  server_event data -> Forall server_payload (sends (announce data cs)).
Proof.
  intros Hd. rewrite sends_announce. apply Forall_forall.
  intros p Hp. apply in_map_iff in Hp. destruct Hp as [c [<- _]].
  exists data. now split.
Qed.

Lemma sends_history_attempt (server : WebSocket) (h : list ChatMessage) :
  sends (history_attempt server h)
  = [(server, JSON_stringify (history_event h))].
Proof.
  unfold history_attempt.
  now destruct (send_throws server (JSON_stringify (history_event h))).
Qed.

Lemma sends_pruned_log (s : State) : sends (pruned_log s) = [].
Proof. unfold pruned_log. now destruct (200 <? length (store s)). Qed.

Lemma sends_accepted_log (s : State) :
  sends (accepted_log s)
  = (pairs s, JSON_stringify (history_event (store s)))
    :: map (fun c => (conn_socket c,
                      JSON_stringify
                        (presence_event (JsMap.size (connections (accepted_state s))))))
         (JsMap.values (connections (accepted_state s))).
Proof.
  unfold accepted_log. cbn [app sends flat_map].
  rewrite !sends_app, sends_history_attempt, sends_announce.
  cbn. now rewrite app_nil_r.
Qed.

Lemma sends_message_outcome (v : Verdict) (s : State) :
  sends (log_of (message_outcome v s))
  = match v with
    | Accepted text alias color =>
        map (fun c => (conn_socket c,
                       JSON_stringify
                         (message_event (built_message text alias color s))))
          (JsMap.values (connections s))
    | _ => []
    end.
Proof.
  destruct v as [[|]|[|]|text alias color]; try reflexivity.
  unfold message_outcome, log_of. cbn [snd app sends flat_map].
  now rewrite !sends_app, sends_pruned_log, sends_announce.
Qed.

Lemma sends_rel_run (evs : list Event) : respects sends_rel (run evs).
Proof.
  apply respects_run; try typeclasses eauto.
  - intros upgrade s. unfold sends_rel.
    destruct (no_upgrade upgrade) eqn:Hu.
    + rewrite (GET_refused _ _ Hu). constructor.
    + rewrite (GET_eq _ _ Hu). unfold log_of; cbn [snd].
      rewrite sends_accepted_log. constructor.
      * eexists. split; [|reflexivity]. now left.
      * rewrite <- sends_announce. apply server_payload_announce.
        right. now right.
  - intros d s. unfold sends_rel.
    rewrite on_message_eq, sends_message_outcome.
    destruct (verdict d) as [[|]|[|]|text alias color]; try constructor.
    rewrite <- sends_announce. apply server_payload_announce.
    right. now left.
  - intros id s. unfold sends_rel. rewrite cleanup_eq.
    unfold log_of; cbn [snd].
    change (sends (MapDelete id :: ?t)) with (sends t).
    apply server_payload_announce. right. now right.
  - intros e s. constructor.
  - intros s. constructor.
Qed.

(** *** The registry *)

Lemma JsMap_set_in {V : Type} (k k' : string) (v v' : V) (m : JsMap.t V) :
  In (k', v') (JsMap.set k v m) -> (k', v') = (k, v) \/ In (k', v') m.
Proof using Type.
  clear JSON_parse JSON_stringify randomUUID toISOString send_throws.
  induction m as [|[k0 v0] m IH]; cbn.
  - intros [E|[]]. now left.
  - destruct (String.eqb k k0); cbn; intuition.
Qed.

Lemma JsMap_delete_in {V : Type} (k k' : string) (v' : V) (m : JsMap.t V) :
  In (k', v') (JsMap.delete k m) -> In (k', v') m.
Proof using Type.
  clear JSON_parse JSON_stringify randomUUID toISOString send_throws.
  induction m as [|[k0 v0] m IH]; cbn; [tauto|].
  destruct (String.eqb k k0); cbn; intuition.
Qed.

Lemma JsMap_keys_in {V : Type} (k : string) (m : JsMap.t V) :
  In k (JsMap.keys m) <-> exists v, In (k, v) m.
Proof using Type.
  unfold JsMap.keys. rewrite in_map_iff. split.
  - intros [[k0 v] [E H]]. cbn in E. subst. now exists v.
  - intros [v H]. now exists (k, v).
Qed.

Lemma JsMap_has_false {V : Type} (k : string) (m : JsMap.t V) :
  JsMap.has k m = false <-> ~ In k (JsMap.keys m).
Proof using Type.
  clear JSON_parse JSON_stringify randomUUID toISOString send_throws.
  unfold JsMap.has. induction m as [|[k0 v0] m IH]; cbn.
  - tauto.
  - destruct (String.eqb_spec k k0) as [E|E].
    + split; [discriminate|]. intros H. exfalso. apply H. now left.
    + rewrite IH. intuition congruence.
Qed.

Lemma JsMap_set_holds {V : Type} (k : string) (v : V) (m : JsMap.t V) :
  In (k, v) (JsMap.set k v m).
Proof using Type.
  induction m as [|[k0 v0] m IH]; cbn; [now left|].
  destruct (String.eqb_spec k k0) as [E|E]; [now left | now right].
Qed.

Lemma JsMap_set_fresh {V : Type} (k : string) (v : V) (m : JsMap.t V) :
  ~ In k (JsMap.keys m) -> JsMap.set k v m = m ++ [(k, v)].
Proof using Type.
  induction m as [|[k0 v0] m IH]; cbn; [reflexivity|]. intros H.
  destruct (String.eqb_spec k k0) as [E|E]; [exfalso; apply H; now left|].
  rewrite IH; [reflexivity|]. intros Hin. apply H. now right.
Qed.

Lemma JsMap_delete_absent {V : Type} (k : string) (m : JsMap.t V) :
  ~ In k (JsMap.keys m) -> JsMap.delete k m = m.
Proof using Type.
  induction m as [|[k0 v0] m IH]; cbn; [reflexivity|]. intros H.
  destruct (String.eqb_spec k k0) as [E|E]; [exfalso; apply H; now left|].
  rewrite IH; [reflexivity|]. intros Hin. apply H. now right.
Qed.

(** *** Well-formed states *)

Lemma in_nth_concat {A : Type} (x : A) (r : nat) (l : list (list A)) :
  In x (nth r l []) -> In x (concat l).
Proof using Type.
  clear JSON_parse JSON_stringify randomUUID toISOString send_throws.
  revert r. induction l as [|a l IH]; intros [|r]; cbn; try tauto.
  - intros H. apply in_or_app. now left.
  - intros H. apply in_or_app. right. now apply (IH r).
Qed.

Lemma in_firstn {A : Type} (x : A) (n : nat) (l : list A) :
  In x (firstn n l) -> In x l.
Proof using Type.
  clear JSON_parse JSON_stringify randomUUID toISOString send_throws.
  revert l. induction n as [|n IH]; intros [|a l]; cbn; try tauto.
  intros [E|H]; [now left | right; now apply IH].
Qed.

Lemma in_skipn {A : Type} (x : A) (n : nat) (l : list A) :
  In x (skipn n l) -> In x l.
Proof using Type.
  clear JSON_parse JSON_stringify randomUUID toISOString send_throws.
  revert l. induction n as [|n IH]; intros [|a l]; cbn; try tauto.
  intros H. right. now apply IH.
Qed.

Lemma Array_slice_incl {A : Type} (l : list A) (a : Z) (b : option Z) (x : A) :
  In x (Js.Array_slice l a b) -> In x l.
Proof using Type.
  unfold Js.Array_slice. intros H.
  apply in_firstn in H. now apply in_skipn in H.
Qed.

#[local] Instance wf_rel_chain : Chain wf_rel.
Proof.
  split.
  - intros s H. split; [exact H | lia].
  - intros s1 s2 s3 t1 t2 H12 H23 H1.
    destruct (H12 H1) as [H2 L12]. destruct (H23 H2) as [H3 L23].
    split; [exact H3 | lia].
Qed.

Lemma wf_next_draw (s : State) : wf s -> wf (next_draw s).
Proof.
  intros (Hh & Hk & Hid). repeat split; [exact Hh | exact Hk |].
  intros id Hin. destruct (Hid id Hin) as (n & Hn & E).
  exists n. cbn. split; [lia | exact E].
Qed.

Lemma wf_assign_history (a : list ChatMessage) (s : State) :
  wf s ->
  (forall y, In y a -> exists n, n < drawn s /\ msg_id y = randomUUID n) ->
  wf (assign_history a s).
Proof.
  intros (Hh & Hk & Hid) Ha. repeat split.
  - cbn. rewrite length_app. cbn. lia.
  - exact Hk.
  - intros id Hin. unfold held_ids in *. cbn in Hin.
    rewrite concat_app, map_app in Hin. cbn in Hin. rewrite app_nil_r in Hin.
    apply in_app_or in Hin. destruct Hin as [Hin|Hin].
    + apply Hid. apply in_or_app. now left.
    + apply in_app_or in Hin. destruct Hin as [Hin|Hin].
      * apply Hid. apply in_or_app. now right.
      * apply in_map_iff in Hin. destruct Hin as (y & <- & Hy). now apply Ha.
Qed.

Lemma wf_store (s : State) (y : ChatMessage) :
  wf s -> In y (store s) -> exists n, n < drawn s /\ msg_id y = randomUUID n.
Proof.
  intros (_ & _ & Hid) Hy. apply Hid. apply in_or_app. right.
  apply in_map. eapply in_nth_concat. exact Hy.
Qed.

Lemma wf_pruned_state (s : State) : wf s -> wf (pruned_state s).
Proof.
  intros H. unfold pruned_state.
  destruct (200 <? length (store s)); [|exact H].
  apply wf_assign_history; [exact H|].
  intros y Hy. apply Array_slice_incl in Hy. now apply wf_store.
Qed.

Lemma wf_stored_state (text : string) (alias color : option Json) (s : State) :
  wf s -> wf (stored_state (built_message text alias color s) s).
Proof.
  intros H. unfold stored_state. apply wf_pruned_state.
  apply wf_assign_history; [now apply wf_next_draw|].
  intros y Hy. apply in_app_or in Hy. destruct Hy as [Hy|[<-|[]]].
  - destruct (wf_store s y H Hy) as (n & Hn & E).
    exists n. cbn. split; [lia | exact E].
  - exists (drawn s). cbn. split; [lia | reflexivity].
Qed.

Lemma drawn_pruned_state (s : State) : drawn (pruned_state s) = drawn s.
Proof. unfold pruned_state. now destruct (200 <? length (store s)). Qed.

Lemma wf_accepted_state (s : State) : wf s -> wf (accepted_state s).
Proof.
  intros (Hh & Hk & Hid). repeat split.
  - exact Hh.
  - intros k c Hin. cbn in Hin. apply JsMap_set_in in Hin.
    destruct Hin as [E|Hin]; [now inversion E | now apply Hk].
  - intros id Hin. unfold held_ids in Hin. cbn in Hin.
    apply in_app_or in Hin. destruct Hin as [Hin|Hin].
    + apply JsMap_keys_in in Hin. destruct Hin as [c Hin].
      apply JsMap_set_in in Hin. destruct Hin as [E|Hin].
      * inversion E. exists (drawn s). cbn. split; [lia | reflexivity].
      * destruct (Hid id) as (n & Hn & E).
        { apply in_or_app. left. apply JsMap_keys_in. now exists c. }
        exists n. cbn. split; [lia | exact E].
    + destruct (Hid id) as (n & Hn & E).
      { apply in_or_app. now right. }
      exists n. cbn. split; [lia | exact E].
Qed.

Lemma wf_cleanup_state (id : string) (s : State) :
  wf s -> wf (with_connections (JsMap.delete id) s).
Proof.
  intros (Hh & Hk & Hid). repeat split.
  - exact Hh.
  - intros k c Hin. cbn in Hin. apply JsMap_delete_in in Hin. now apply Hk.
  - intros i Hin. unfold held_ids in Hin. cbn in Hin.
    apply Hid. apply in_app_or in Hin. apply in_or_app.
    destruct Hin as [Hin|Hin]; [left | now right].
    apply JsMap_keys_in in Hin. destruct Hin as [c Hin].
    apply JsMap_delete_in in Hin. apply JsMap_keys_in. now exists c.
Qed.

Lemma wf_rel_run (evs : list Event) : respects wf_rel (run evs).
Proof.
  apply respects_run; try typeclasses eauto.
  - intros upgrade s H. destruct (no_upgrade upgrade) eqn:Hu.
    + rewrite (GET_refused _ _ Hu). split; [exact H | cbn; lia].
    + rewrite (GET_eq _ _ Hu). split; [now apply wf_accepted_state|].
      cbn. lia.
  - intros d s H. rewrite on_message_eq.
    destruct (verdict d) as [[|]|[|]|text alias color]; unfold state_of;
      cbn [message_outcome fst snd].
    + split; [exact H | lia].
    + split; [exact H | lia].
    + split; [now apply wf_next_draw | cbn; lia].
    + split; [exact H | lia].
    + split; [now apply wf_stored_state|].
      unfold stored_state. rewrite drawn_pruned_state. cbn. lia.
  - intros id s H. rewrite cleanup_eq.
    split; [now apply wf_cleanup_state | cbn; lia].
  - intros e s H. split; [exact H | lia].
  - intros s H. split; [exact H | cbn; lia].
Qed.

Lemma wf_initial : wf initial.
Proof.
  repeat split; cbn; try lia; try tauto.
Qed.

Lemma reachable_wf (s : State) : reachable s -> wf s.
Proof.
  induction 1 as [|ev s _ IH]; [exact wf_initial|].
  pose proof (respects_step wf_rel) as Hstep.
  apply (wf_rel_run [ev]) in IH.
  destruct IH as [IH _]. revert IH.
  unfold run, state_of, for_of, bind, ret.
  destruct (step ev s) as [[[[]|e] s1] t1]; cbn; tauto.
Qed.

Lemma reachable_run (evs : list Event) (s : State) :
  reachable s -> reachable (state_of (run evs s)).
Proof.
  revert s. induction evs as [|ev evs IH]; intros s H; [exact H|].
  unfold run in *. cbn [for_of]. unfold bind, state_of.
  pose proof (reachable_step ev s H) as H1. unfold state_of in H1.
  destruct (step ev s) as [[[[]|e] s1] t1]; cbn in *; [|exact H1].
  specialize (IH s1 H1). unfold state_of in IH.
  destruct (for_of evs step s1) as [[r s2] t2]. exact IH.
Qed.

(** *** Fresh identifiers *)

Lemma fresh_draw (s : State) :
  (forall i j, randomUUID i = randomUUID j -> i = j) ->
  wf s -> ~ In (randomUUID (drawn s)) (held_ids s).
Proof.
  intros Hinj (_ & _ & Hid) Hin.
  destruct (Hid _ Hin) as (n & Hn & E). apply Hinj in E. lia.
Qed.

(** *** Truncation *)

Lemma substring_min (n : nat) (s : string) :
  substring 0 (Nat.min n (String.length s)) s = substring 0 n s.
Proof using Type.
  revert n. induction s as [|c s IH]; intros [|n]; cbn; try reflexivity.
  now rewrite IH.
Qed.

Lemma String_slice_prefix (s : string) (n : nat) :
  Js.String_slice s 0 (Z.of_nat n) = truncate n s.
Proof using Type.
  unfold Js.String_slice, Js.relative_index, truncate.
  destruct (Z.ltb_spec (Z.of_nat n) 0) as [|_]; [lia|].
  cbn [Z.ltb Z.compare].
  replace (Z.to_nat (Z.min 0 (Z.of_nat (String.length s)))) with 0 by lia.
  replace (Z.to_nat _) with (Nat.min n (String.length s)) by lia.
  apply substring_min.
Qed.

Lemma truncate_length (n : nat) (s : string) :
  String.length (truncate n s) = Nat.min n (String.length s).
Proof using Type.
  unfold truncate. revert n.
  induction s as [|c s IH]; intros [|n]; cbn; try reflexivity.
  now rewrite IH.
Qed.

Lemma truncate_empty (n : nat) (s : string) :
  0 < n -> String.eqb (truncate n s) "" = String.eqb s "".
Proof using Type.
  intros Hn. destruct n as [|n]; [lia|]. now destruct s.
Qed.

Lemma firstn_min {A : Type} (n : nat) (l : list A) :
  firstn (Nat.min n (length l)) l = firstn n l.
Proof using Type.
  clear JSON_parse JSON_stringify randomUUID toISOString send_throws.
  revert n. induction l as [|a l IH]; intros [|n]; cbn; try reflexivity.
  now rewrite IH.
Qed.

Lemma Array_slice_prefix {A : Type} (l : list A) (n : nat) :
  Js.Array_slice l 0 (Some (Z.of_nat n)) = firstn n l.
Proof using Type.
  clear JSON_parse JSON_stringify randomUUID toISOString send_throws.
  unfold Js.Array_slice, Js.relative_index.
  destruct (Z.ltb_spec (Z.of_nat n) 0) as [|_]; [lia|].
  cbn [Z.ltb Z.compare].
  replace (Z.to_nat (Z.min 0 (Z.of_nat (length l)))) with 0 by lia.
  replace (Z.to_nat _) with (Nat.min n (length l)) by lia.
  cbn [skipn]. apply firstn_min.
Qed.

Lemma or_else_sliced (v : option string) (n : nat) (fallback : string) :
  0 < n ->
  exists r,
    sliced (option_map JString v) (Z.of_nat n) = Some r
    /\ or_else r (JString fallback) = JString (clamp n fallback v).
Proof.
  intros Hn. destruct v as [a|]; cbn [option_map sliced].
  - eexists. split; [reflexivity|].
    cbn [or_else truthy clamp].
    rewrite String_slice_prefix, truncate_empty by exact Hn.
    now destruct (String.eqb a "").
  - eexists. split; reflexivity.
Qed.

Lemma trim_empty : Js.trim "" = "".
Proof using Type. reflexivity. Qed.

Lemma in_appended (m : ChatMessage) (t : list Effect) :
  In (HistoryAppend m) t -> In m (appended t).
Proof.
  intros H. unfold appended. apply in_flat_map.
  exists (HistoryAppend m). split; [exact H | now left].
Qed.

(** *** Accepted messages *)

Lemma verdict_accepted (str : string) (fields : list (string * Json))
  (text : string) (alias color : option Json) :
  JSON_parse str = Some (JObject fields) ->
  assoc "type" fields = Some (JString "message") ->
  assoc "text" fields = Some (JString text) ->
  Js.trim text <> "" ->
  sliced (assoc "alias" fields) 48 = Some alias ->
  sliced (assoc "color" fields) 64 = Some color ->
  verdict (Text str)
  = Accepted (Js.String_slice (Js.trim text) 0 480) alias color.
Proof.
  intros Hparse Htype Htext Htrim Halias Hcolor.
  unfold verdict. rewrite Hparse. cbn [field].
  rewrite Htype, Htext, Halias, Hcolor. cbn [is_not_message truthy].
  destruct (String.eqb_spec text "") as [E|_].
  - subst text. now rewrite trim_empty in Htrim.
  - cbn. destruct (String.eqb_spec (Js.trim text) "") as [E|_];
      [contradiction | reflexivity].
Qed.




Lemma log_of_accepted (text : string) (alias color : option Json) (s : State) :
  log_of (message_outcome (Accepted text alias color) s)
  = [RandomUUID (randomUUID (drawn s)); DateNow (toISOString (clock s));
     HistoryAppend (built_message text alias color s)]
    ++ pruned_log
         (assign_history (store s ++ [built_message text alias color s])
            (next_draw s))
    ++ announce (message_event (built_message text alias color s))
         (connections s).
Proof. reflexivity. Qed.

(** Every other payload that C6 speaks of is dropped as it says: binary
    data, a text that does not parse, a parsed value other than [null]
    whose type is not [message], or whose text is missing, falsy or empty
    once trimmed. The listener returns, the state is as it was, and the
    log holds at most the report of the parse error. *)
Lemma dropped_payload_leaves_no_trace (d : MessageData) (s : State) :
  match d with
  | Binary => True
  | Text str =>
      match JSON_parse str with
      | None => True
      | Some JNull => False
      | Some data =>
          is_not_message (field "type" data) = true
          \/ truthy (field "text" data) = false
          \/ exists t, field "text" data = Some (JString t) /\ Js.trim t = ""
      end
  end ->
  result_of (on_message d s) = Return tt
  /\ state_of (on_message d s) = s
  /\ sends (log_of (on_message d s)) = []
  /\ appended (log_of (on_message d s)) = []
  /\ stringified (log_of (on_message d s)) = [].
Proof.
  intros H. rewrite on_message_eq.
  assert (Hv : exists logged, verdict d = Ignored logged).
  { destruct d as [|str]; [now exists false|]. unfold verdict.
    destruct (JSON_parse str) as [data|]; [|now exists true].
    exists false.
    destruct data as [ | b | q | str' | items | fields]; try tauto;
      destruct H as [H|[H|(t & Ht & Htrim)]]; rewrite ?H; try reflexivity;
      try discriminate.
    - destruct (is_not_message _); reflexivity.
    - destruct (is_not_message _); [reflexivity|].
      rewrite Ht. cbn [truthy].
      destruct (negb (negb (String.eqb t ""))); [reflexivity|].
      now rewrite Htrim. }
  destruct Hv as [[|] ->]; repeat split.
Qed.

(** *** The claims *)

(** C1. Whatever events the route handles from its initial state, the
    message store never holds more than 200 messages, and it holds
    exactly the last 200 of the messages appended so far (all of them
    when fewer were appended), in the order of their appends. *)
Theorem history_keeps_most_recent_200 (evs : list Event) :
  store (state_of (run evs initial))
  = lastn 200 (appended (log_of (run evs initial)))
  /\ length (store (state_of (run evs initial))) <= 200.
Proof.
  destruct (store_rel_run evs initial) as [E L]; [cbn; lia|].
  split; [|exact L].
  rewrite E. change (store initial) with (@lastn ChatMessage 200 []).
  now rewrite fold_append_and_trim.
Qed.

(** C2. [broadcast] serialises its payload once, tries to send that one
    string to every registered connection other than the one the exclude
    id names, in the order of the registry; a [send] that throws is
    logged and the loop goes on; [broadcast] returns normally and leaves
    the state as it was. The registry is one whose identifiers are not
    empty, as those that [crypto.randomUUID] hands out are: the test
    [options?.exclude &&] takes an empty exclude id for none. *)
Theorem broadcast_reaches_all_but_excluded
  (data : Json) (options : option BroadcastOptions) (s : State) :
  (forall c, In c (JsMap.values (connections s)) -> conn_id c <> "") ->
  result_of (broadcast data options s) = Return tt
  /\ state_of (broadcast data options s) = s
  /\ stringified (log_of (broadcast data options s)) = [data]
  /\ sends (log_of (broadcast data options s))
     = map (fun c => (conn_socket c, JSON_stringify data))
         (recipients options (JsMap.values (connections s)))
  /\ log_of (broadcast data options s)
     = Stringify data ::
       flat_map
         (fun c =>
            if send_throws (conn_socket c) (JSON_stringify data)
            then [Send (conn_socket c) (JSON_stringify data) true;
                  ConsoleError "Broadcast failed"]
            else [Send (conn_socket c) (JSON_stringify data) false])
         (recipients options (JsMap.values (connections s))).
Proof.
  intros Hid. rewrite broadcast_eq, excluded_recipients by exact Hid.
  unfold result_of, state_of, log_of; cbn [fst snd].
  repeat split.
  - cbn. now rewrite stringified_fan_out.
  - cbn. apply sends_fan_out.
Qed.

(** C3, as the code has it. A presence event carrying the size of the
    registry is broadcast to every registered connection, nobody
    excluded, by each accepted connect (after the registration and the
    attempt to send the history to the new socket) and by each run of
    [cleanup] (right after the removal); the [message] listener and a
    refused request serialise no presence event. *)
Theorem presence_follows_membership_changes (s : State) :
  (forall upgrade, no_upgrade upgrade = false ->
     log_of (GET upgrade s)
     = [NewWebSocketPair (pairs s); RandomUUID (randomUUID (drawn s));
        Accept (pairs s); MapSet (randomUUID (drawn s))]
       ++ history_attempt (pairs s) (store s)
       ++ announce
            (presence_event (JsMap.size (connections (state_of (GET upgrade s)))))
            (connections (state_of (GET upgrade s)))
       ++ [AddEventListener (pairs s) OnMessage;
           AddEventListener (pairs s) OnClose;
           AddEventListener (pairs s) OnError])
  /\ (forall id,
        log_of (cleanup id s)
        = MapDelete id ::
          announce
            (presence_event (JsMap.size (connections (state_of (cleanup id s)))))
            (connections (state_of (cleanup id s))))
  /\ (forall d,
        Forall (fun j => is_presence j = false)
          (stringified (log_of (on_message d s))))
  /\ (forall upgrade, no_upgrade upgrade = true -> log_of (GET upgrade s) = []).
Proof.
  repeat split.
  - intros upgrade Hu. now rewrite (GET_eq _ _ Hu).
  - intros id. now rewrite cleanup_eq.
  - intros d. rewrite on_message_eq.
    destruct (verdict d) as [[|]|[|]|text alias color]; try constructor.
    unfold message_outcome, log_of. cbn [snd app stringified flat_map].
    rewrite !stringified_app, stringified_announce.
    unfold pruned_log.
    destruct (200 <? length _); cbn; repeat constructor.
  - intros upgrade Hu. now rewrite (GET_refused _ _ Hu).
Qed.

(** C4, as the code has it. An accepted connect draws a fresh identifier,
    registers the connection under it at the end of the registry, then
    tries to send the history event with the contents of the store to the
    new socket (a failure is logged and the handler goes on), then
    announces the presence, and answers 101: the registration comes
    before the history is sent. *)
Theorem connect_registers_before_it_replays
  (upgrade : option string) (s : State) :
  (forall i j, randomUUID i = randomUUID j -> i = j) ->
  reachable s ->
  no_upgrade upgrade = false ->
  ~ In (randomUUID (drawn s)) (held_ids s)
  /\ result_of (GET upgrade s)
     = Return (mkResponse 101 (Some (client_of (pairs s))))
  /\ connections (state_of (GET upgrade s))
     = connections s
       ++ [(randomUUID (drawn s),
            {| conn_id := randomUUID (drawn s); conn_socket := pairs s |})]
  /\ log_of (GET upgrade s)
     = [NewWebSocketPair (pairs s); RandomUUID (randomUUID (drawn s));
        Accept (pairs s); MapSet (randomUUID (drawn s))]
       ++ [Stringify (history_event (store s));
           Send (pairs s) (JSON_stringify (history_event (store s)))
             (send_throws (pairs s) (JSON_stringify (history_event (store s))))]
       ++ (if send_throws (pairs s) (JSON_stringify (history_event (store s)))
           then [ConsoleError "Failed to send history"] else [])
       ++ announce
            (presence_event (S (JsMap.size (connections s))))
            (connections (state_of (GET upgrade s)))
       ++ [AddEventListener (pairs s) OnMessage;
           AddEventListener (pairs s) OnClose;
           AddEventListener (pairs s) OnError]
  /\ registered_before_history_sent (log_of (GET upgrade s)).
Proof.
  intros Hinj Hreach Hu.
  pose proof (fresh_draw s Hinj (reachable_wf s Hreach)) as Hfresh.
  assert (Hkey : ~ In (randomUUID (drawn s)) (JsMap.keys (connections s))).
  { intros H. apply Hfresh. apply in_or_app. now left. }
  rewrite (GET_eq _ _ Hu).
  unfold result_of, state_of, log_of; cbn [fst snd].
  assert (Hcs : connections (accepted_state s)
                = connections s
                  ++ [(randomUUID (drawn s),
                       {| conn_id := randomUUID (drawn s);
                          conn_socket := pairs s |})]).
  { cbn. now apply JsMap_set_fresh. }
  repeat split.
  - exact Hfresh.
  - exact Hcs.
  - unfold accepted_log, history_attempt. rewrite <- !app_assoc.
    do 3 f_equal. f_equal.
    change (JsMap.set _ _ (connections s))
      with (connections (accepted_state s)).
    rewrite Hcs. unfold JsMap.size. rewrite length_app. cbn.
    now rewrite Nat.add_1_r.
  - exists 3, 5. unfold accepted_log, history_attempt. cbn. repeat split. lia.
Qed.

(** C5, as the code has it. [cleanup] for an id that is not registered
    returns normally and leaves the state as it was, and still broadcasts
    a presence event with the unchanged count to every registered
    connection; every run of [cleanup], the second one for a connection
    included, serialises exactly one presence event. *)
Theorem cleanup_of_absent_id_still_announces (id : string) (s : State) :
  JsMap.has id (connections s) = false ->
  result_of (cleanup id s) = Return tt
  /\ state_of (cleanup id s) = s
  /\ log_of (cleanup id s)
     = MapDelete id ::
       announce (presence_event (JsMap.size (connections s))) (connections s)
  /\ stringified (log_of (cleanup id s))
     = [presence_event (JsMap.size (connections s))]
  /\ sends (log_of (cleanup id s))
     = map (fun c => (conn_socket c,
                      JSON_stringify
                        (presence_event (JsMap.size (connections s)))))
         (JsMap.values (connections s)).
Proof.
  intros Habs. apply JsMap_has_false in Habs.
  rewrite cleanup_eq, (JsMap_delete_absent _ _ Habs).
  unfold result_of, state_of, log_of; cbn [fst snd].
  repeat split.
  - destruct s; unfold with_connections; cbn in *.
    now rewrite (JsMap_delete_absent _ _ Habs).
  - change (stringified (MapDelete id :: ?t)) with (stringified t).
    apply stringified_announce.
  - change (sends (MapDelete id :: ?t)) with (sends t).
    apply sends_announce.
Qed.

(** C6, at the input where the code departs from it. The text [null] is
    valid JSON; the listener parses it and then reads [data.type] of
    [null], which throws a TypeError out of the listener. Nothing is
    stored or sent. *)
Theorem null_payload_makes_the_listener_throw (str : string) (s : State) :
  JSON_parse str = Some JNull ->
  on_message (Text str) s = (Throw TypeError, s, []).
Proof.
  intros Hparse. rewrite on_message_eq. unfold verdict. now rewrite Hparse.
Qed.

(** C7. When the [message] listener appends a chat message to the store,
    it then broadcasts the message event for it, once, to every
    registered connection: no connection is left out, the sender's
    included, and the registry is as it was. *)
Theorem chat_message_goes_to_every_connection
  (d : MessageData) (s : State) (m : ChatMessage) :
  In (HistoryAppend m) (log_of (on_message d s)) ->
  (exists before pruning,
     log_of (on_message d s)
     = before ++ HistoryAppend m :: pruning
       ++ announce (message_event m) (connections s)
     /\ sends before = [] /\ sends pruning = [])
  /\ stringified (log_of (on_message d s)) = [message_event m]
  /\ sends (log_of (on_message d s))
     = map (fun c => (conn_socket c, JSON_stringify (message_event m)))
         (JsMap.values (connections s))
  /\ (forall k c, In (k, c) (connections s) ->
        In (conn_socket c, JSON_stringify (message_event m))
           (sends (log_of (on_message d s))))
  /\ connections (state_of (on_message d s)) = connections s.
Proof.
  intros Hin. apply in_appended in Hin. revert Hin.
  rewrite on_message_eq, appended_message_outcome.
  destruct (verdict d) as [[|]|[|]|text alias color]; try solve [intros []].
  intros [<-|[]].
  assert (Hsends : sends (log_of (message_outcome (Accepted text alias color) s))
                   = map (fun c => (conn_socket c,
                            JSON_stringify
                              (message_event (built_message text alias color s))))
                       (JsMap.values (connections s)))
    by apply (sends_message_outcome (Accepted text alias color)).
  repeat split.
  - eexists [_; _], _. rewrite log_of_accepted. cbn [app].
    repeat split. apply sends_pruned_log.
  - rewrite log_of_accepted. cbn [app stringified flat_map].
    rewrite !stringified_app, stringified_announce.
    unfold pruned_log. now destruct (200 <? length _).
  - exact Hsends.
  - intros k c Hc. rewrite Hsends.
    apply in_map_iff. exists c. split; [reflexivity|].
    apply in_map_iff. now exists (k, c).
  - unfold state_of, message_outcome, stored_state; cbn [fst snd].
    now rewrite connections_pruned_state.
Qed.


(** C9. The array the store refers to at some point of a run, which is
    what a history event of that moment serialises, keeps its contents
    whatever events come later: appending and trimming build new arrays
    and never write to one that exists. *)
Theorem snapshot_survives_later_events (before later : list Event) :
  deref (state_of (run later (state_of (run before initial))))
        (history (state_of (run before initial)))
  = store (state_of (run before initial)).
Proof.
  set (s := state_of (run before initial)).
  assert (Hwf : wf s) by (apply reachable_wf, reachable_run; constructor).
  destruct (heap_rel_run later s) as [more E].
  unfold store, deref. rewrite E. apply app_nth1. apply Hwf.
Qed.

(** C10. Every payload the route hands to [send], in any run from any
    state, is the serialisation of a JSON object whose [type] field is
    [history], [message] or [presence]. *)
Theorem every_payload_is_a_server_event (evs : list Event) (s : State) :
  Forall
    (fun p : WebSocket * string =>
       exists fields,
         snd p = JSON_stringify (JObject fields)
         /\ (assoc "type" fields = Some (JString "history")
             \/ assoc "type" fields = Some (JString "message")
             \/ assoc "type" fields = Some (JString "presence")))
    (sends (log_of (run evs s))).
Proof.
  eapply Forall_impl; [|apply (sends_rel_run evs s)].
  intros p (d & Hd & E). unfold server_event, event_type in Hd.
  destruct d as [ | b | q | str | items | fields];
    try (destruct Hd as [H|[H|H]]; discriminate).
  exists fields. split; [exact E|].
  destruct (assoc "type" fields) as [[ | b | q | ty | items | fs]|];
    try (destruct Hd as [H|[H|H]]; discriminate).
  destruct Hd as [H|[H|H]]; inversion H; tauto.
Qed.


(** *** Further properties of the route *)

Lemma sliced_string_or_absent (v : option Json) (n : Z) :
  string_or_absent v -> exists r, sliced v n = Some r.
Proof using Type.
  clear JSON_parse JSON_stringify randomUUID toISOString send_throws.
  destruct v as [[ | b | q | a | items | fs]|]; cbn; try tauto;
    intros _; eexists; reflexivity.
Qed.

(** X1. [GET] answers 426 exactly when the request has no [upgrade]
    header or an empty one; it then touches nothing: no socket pair, no
    identifier, no registration, nothing sent. Any other request makes
    one new pair, accepts and registers its server end, and is answered
    101 with the client end of that pair. *)
Theorem GET_refuses_without_upgrade (upgrade : option string) (s : State) :
  (upgrade = None \/ upgrade = Some "" <->
   result_of (GET upgrade s) = Return (mkResponse 426 None))
  /\ (result_of (GET upgrade s) = Return (mkResponse 426 None) ->
      state_of (GET upgrade s) = s /\ log_of (GET upgrade s) = [])
  /\ (result_of (GET upgrade s) <> Return (mkResponse 426 None) ->
      result_of (GET upgrade s)
      = Return (mkResponse 101 (Some (client_of (pairs s))))
      /\ pairs (state_of (GET upgrade s)) = S (pairs s)
      /\ log_of (GET upgrade s)
         = NewWebSocketPair (pairs s) :: RandomUUID (randomUUID (drawn s))
           :: Accept (pairs s) :: skipn 3 (log_of (GET upgrade s))
      /\ In (randomUUID (drawn s),
             {| conn_id := randomUUID (drawn s); conn_socket := pairs s |})
           (connections (state_of (GET upgrade s)))).
Proof.
  assert (Hu : no_upgrade upgrade = true <-> upgrade = None \/ upgrade = Some "").
  { destruct upgrade as [v|]; cbn.
    - destruct (String.eqb_spec v "") as [->|E]; split; intros H; auto;
        try discriminate. destruct H as [H|H]; [discriminate|].
      congruence.
    - split; auto. }
  destruct (no_upgrade upgrade) eqn:Hn.
  - rewrite (GET_refused _ _ Hn). cbn.
    split; [split; [reflexivity | intros _; now apply Hu]|].
    split; [intros _; now split | intros H; now destruct H].
  - rewrite (GET_eq _ _ Hn). cbn.
    split; [split; [intros H; apply Hu in H; discriminate | discriminate]|].
    split; [discriminate|]. intros _.
    split; [reflexivity|]. split; [reflexivity|]. split; [reflexivity|].
    cbn. apply JsMap_set_holds.
Qed.

(** X2. No failure of a [send] escapes a handler: whatever sockets are
    broken, [GET] and [cleanup] return, and the [message] listener either
    returns or throws a TypeError of its own. *)
Theorem send_failures_never_escape (s : State) :
  (forall upgrade, exists r, result_of (GET upgrade s) = Return r)
  /\ (forall id, result_of (cleanup id s) = Return tt)
  /\ (forall d, result_of (on_message d s) = Return tt
                \/ result_of (on_message d s) = Throw TypeError).
Proof.
  repeat split.
  - intros upgrade. destruct (no_upgrade upgrade) eqn:Hn.
    + rewrite (GET_refused _ _ Hn). now eexists.
    + rewrite (GET_eq _ _ Hn). now eexists.
  - intros id. now rewrite cleanup_eq.
  - intros d. rewrite on_message_eq.
    destruct (verdict d) as [[|]|[|]|text alias color]; cbn; auto.
Qed.

(** X3. An exclude id that is absent, empty, or the id of no registered
    connection excludes nobody: [broadcast] then does what it does with
    no options at all. *)
Theorem idle_exclude_excludes_nobody (data : Json) (s : State) :
  broadcast data (Some {| exclude := None |}) s = broadcast data None s
  /\ broadcast data (Some {| exclude := Some "" |}) s = broadcast data None s
  /\ (forall e,
        (forall c, In c (JsMap.values (connections s)) -> conn_id c <> e) ->
        broadcast data (Some {| exclude := Some e |}) s
        = broadcast data None s).
Proof.
  repeat split; rewrite ?broadcast_eq; try reflexivity.
  intros e He. rewrite !broadcast_eq.
  do 3 f_equal. apply filter_ext_in. intros c Hc. cbn.
  destruct (String.eqb_spec (conn_id c) e) as [E|_];
    [now apply He in Hc | now rewrite andb_false_r].
Qed.

(** X4. A client message of type [message] whose text is truthy but not
    a string (a number other than zero, [true], an array, an object)
    makes the listener throw a TypeError at [data.text.trim()], before
    anything is drawn, stored or sent. *)
Theorem non_string_text_makes_the_listener_throw
  (str : string) (fields : list (string * Json)) (text : Json) (s : State) :
  JSON_parse str = Some (JObject fields) ->
  assoc "type" fields = Some (JString "message") ->
  assoc "text" fields = Some text ->
  truthy (Some text) = true ->
  (forall t, text <> JString t) ->
  on_message (Text str) s = (Throw TypeError, s, []).
Proof.
  intros Hparse Htype Htext Htruthy Hns.
  rewrite on_message_eq. unfold verdict. rewrite Hparse. cbn [field].
  rewrite Htype, Htext, Htruthy. cbn.
  destruct text as [ | b | q | t | items | fs]; try reflexivity.
  now destruct (Hns t).
Qed.

(** X5. A chat message whose alias or color is a number, a boolean or an
    object makes the listener throw a TypeError while it builds the
    message: one identifier has been drawn by then, and nothing else
    happened, the store and the registry are as they were and nothing was
    sent. *)
Theorem unsliceable_alias_or_color_makes_the_listener_throw
  (str : string) (fields : list (string * Json)) (text : string) (s : State) :
  JSON_parse str = Some (JObject fields) ->
  assoc "type" fields = Some (JString "message") ->
  assoc "text" fields = Some (JString text) ->
  Js.trim text <> "" ->
  not_sliceable (assoc "alias" fields) \/ not_sliceable (assoc "color" fields) ->
  on_message (Text str) s
  = (Throw TypeError, next_draw s, [RandomUUID (randomUUID (drawn s))])
  /\ store (state_of (on_message (Text str) s)) = store s
  /\ connections (state_of (on_message (Text str) s)) = connections s
  /\ sends (log_of (on_message (Text str) s)) = [].
Proof.
  intros Hparse Htype Htext Htrim Hbad.
  assert (E : on_message (Text str) s
              = (Throw TypeError, next_draw s,
                 [RandomUUID (randomUUID (drawn s))])).
  { rewrite on_message_eq. unfold verdict. rewrite Hparse. cbn [field].
    rewrite Htype, Htext. cbn [is_not_message truthy].
    destruct (String.eqb_spec text "") as [E|_];
      [subst text; now rewrite trim_empty in Htrim|].
    cbn. destruct (String.eqb_spec (Js.trim text) "") as [E|_];
      [contradiction|].
    destruct Hbad as [H|H].
    - destruct (assoc "alias" fields) as [[ | b | q | a | items | fs]|];
        cbn in H; try tauto; reflexivity.
    - destruct (assoc "color" fields) as [[ | b | q | a | items | fs]|];
        cbn in H; try tauto;
        destruct (sliced (assoc "alias" fields) 48); reflexivity. }
  rewrite E. repeat split.
Qed.

(** X6. An alias that is JSON [null] falls back to [Anonymous]; an alias
    that is an array is kept as an array, cut to its first 48 elements
    and never replaced by the fallback, so that the stored alias is not a
    string. *)
Theorem null_and_array_alias
  (str : string) (fields : list (string * Json)) (text : string) (s : State) :
  JSON_parse str = Some (JObject fields) ->
  assoc "type" fields = Some (JString "message") ->
  assoc "text" fields = Some (JString text) ->
  Js.trim text <> "" ->
  string_or_absent (assoc "color" fields) ->
  (assoc "alias" fields = Some JNull ->
   exists m, appended (log_of (on_message (Text str) s)) = [m]
             /\ msg_alias m = JString "Anonymous")
  /\ (forall items, assoc "alias" fields = Some (JArray items) ->
      exists m, appended (log_of (on_message (Text str) s)) = [m]
                /\ msg_alias m = JArray (firstn 48 items)).
Proof.
  intros Hparse Htype Htext Htrim Hcolor.
  destruct (sliced_string_or_absent _ 64 Hcolor) as [c Hc].
  split.
  - intros Halias.
    rewrite on_message_eq,
      (verdict_accepted str fields text None c Hparse Htype Htext Htrim)
      by (rewrite ?Halias; auto).
    rewrite appended_message_outcome. eexists. split; reflexivity.
  - intros items Halias.
    rewrite on_message_eq,
      (verdict_accepted str fields text
         (Some (JArray (Js.Array_slice items 0 (Some 48%Z)))) c
         Hparse Htype Htext Htrim)
      by (rewrite ?Halias; auto).
    rewrite appended_message_outcome. eexists. split; [reflexivity|].
    cbn. change 48%Z with (Z.of_nat 48). now rewrite Array_slice_prefix.
Qed.


(** *** The registry and the listeners along a run *)

Lemma JsMap_keys_set {V : Type} (k : string) (v : V) (m : JsMap.t V) :
  JsMap.keys (JsMap.set k v m)
  = if JsMap.has k m then JsMap.keys m else JsMap.keys m ++ [k].
Proof using Type.
  clear JSON_parse JSON_stringify randomUUID toISOString send_throws.
  unfold JsMap.has, JsMap.keys.
  induction m as [|[k0 v0] m IH]; cbn; [reflexivity|].
  destruct (String.eqb_spec k k0) as [->|E]; cbn; [reflexivity|].
  rewrite IH. now destruct (assoc k m).
Qed.

Lemma JsMap_set_nodup {V : Type} (k : string) (v : V) (m : JsMap.t V) :
  NoDup (JsMap.keys m) -> NoDup (JsMap.keys (JsMap.set k v m)).
Proof using Type.
  clear JSON_parse JSON_stringify randomUUID toISOString send_throws.
  intros H. rewrite JsMap_keys_set. destruct (JsMap.has k m) eqn:Hk; [exact H|].
  apply JsMap_has_false in Hk.
  apply NoDup_app; [exact H | repeat constructor; intros [] |].
  intros x Hx [<-|[]]. contradiction.
Qed.

Lemma JsMap_delete_filter {V : Type} (k : string) (m : JsMap.t V) :
  NoDup (JsMap.keys m) ->
  JsMap.delete k m = filter (fun kv => negb (String.eqb k (fst kv))) m.
Proof using Type.
  clear JSON_parse JSON_stringify randomUUID toISOString send_throws.
  induction m as [|[k0 v0] m IH]; cbn; [reflexivity|]. intros H.
  inversion H as [|? ? Hnot Hm]; subst.
  destruct (String.eqb_spec k k0) as [->|E]; cbn.
  - rewrite <- IH by exact Hm. symmetry. now apply JsMap_delete_absent.
  - now rewrite IH.
Qed.

Lemma map_filter_nodup {A B : Type} (keep : A -> bool) (f : A -> B)
  (entries : list A) :
  NoDup (map f entries) -> NoDup (map f (filter keep entries)).
Proof using Type.
  clear JSON_parse JSON_stringify randomUUID toISOString send_throws.
  induction entries as [|a l IH]; cbn; [auto|]. intros H.
  inversion H as [|? ? Hnot Hl]; subst.
  destruct (keep a); cbn; [|now apply IH].
  constructor; [|now apply IH].
  intros Hin. apply Hnot. apply in_map_iff in Hin.
  destruct Hin as (x & E & Hx). apply filter_In in Hx.
  apply in_map_iff. exists x. tauto.
Qed.

Lemma sockets_of_map (m : JsMap.t Connection) :
  sockets_of m = map (fun kv => conn_socket (snd kv)) m.
Proof using Type.
  clear JSON_parse JSON_stringify randomUUID toISOString send_throws.
  unfold sockets_of, JsMap.values. apply map_map.
Qed.

Lemma sockets_set_nodup (k : string) (v : Connection) (m : JsMap.t Connection) :
  NoDup (sockets_of m) ->
  (forall key c, In (key, c) m -> conn_socket c <> conn_socket v) ->
  NoDup (sockets_of (JsMap.set k v m)).
Proof using Type.
  clear JSON_parse JSON_stringify randomUUID toISOString send_throws.
  rewrite !sockets_of_map.
  induction m as [|[k0 v0] m IH]; cbn; intros H Hne.
  - repeat constructor. intros [].
  - inversion H as [|? ? Hnot Hm]; subst.
    destruct (String.eqb k k0); cbn.
    + constructor; [|exact Hm]. intros Hin.
      apply in_map_iff in Hin. destruct Hin as ([key c] & E & Hc).
      cbn in E. apply (Hne key c); [now right | exact E].
    + constructor.
      * intros Hin. apply in_map_iff in Hin.
        destruct Hin as ([key c] & E & Hc). cbn in E.
        apply JsMap_set_in in Hc. destruct Hc as [Hc|Hc].
        -- inversion Hc; subst. apply (Hne k0 v0); [now left | now symmetry].
        -- apply Hnot. apply in_map_iff. exists (key, c). now split.
      * apply IH; [exact Hm|]. intros key c Hc. apply (Hne key c). now right.
Qed.

Lemma filter_none {A : Type} (p : A -> bool) (l : list A) :
  (forall x, In x l -> p x = false) -> filter p l = [].
Proof using Type.
  clear JSON_parse JSON_stringify randomUUID toISOString send_throws.
  induction l as [|a l IH]; cbn; [reflexivity|]. intros H.
  rewrite (H a) by now left. apply IH. intros x Hx. apply H. now right.
Qed.

Lemma listens_other (k p : WebSocket) (kind kd : EventKind) (id : string) :
  k <> p -> listens k kind (p, kd, id) = false.
Proof using Type.
  clear JSON_parse JSON_stringify randomUUID toISOString send_throws.
  intros H. unfold listens. cbn.
  destruct (Nat.eqb_spec p k); [congruence | reflexivity].
Qed.

Lemma listeners_accepted_state (s : State) :
  listeners (accepted_state s)
  = listeners s
    ++ [(pairs s, OnMessage, randomUUID (drawn s));
        (pairs s, OnClose, randomUUID (drawn s));
        (pairs s, OnError, randomUUID (drawn s))].
Proof. cbn. now rewrite <- !app_assoc. Qed.

Lemma listener_of_old (s : State) (k : WebSocket) (id : string) :
  k < pairs s -> listener_of s k id -> listener_of (accepted_state s) k id.
Proof.
  intros Hk H kind. rewrite listeners_accepted_state, filter_app, (H kind).
  cbn [filter]. rewrite !listens_other by lia. reflexivity.
Qed.

Lemma listener_of_new (s : State) :
  (forall k kind id, In (k, kind, id) (listeners s) -> k < pairs s) ->
  listener_of (accepted_state s) (pairs s) (randomUUID (drawn s)).
Proof.
  intros Hold kind. rewrite listeners_accepted_state, filter_app.
  rewrite filter_none.
  - unfold listens. cbn. rewrite Nat.eqb_refl. now destruct kind.
  - intros [[k kd] id] Hin. apply Hold in Hin.
    apply listens_other. lia.
Qed.

Lemma registry_ok_accepted_state (s : State) :
  registry_ok s -> registry_ok (accepted_state s).
Proof.
  intros (Hkeys & Hsocks & Hconn & Hlis & Hall).
  repeat split.
  - cbn. now apply JsMap_set_nodup.
  - cbn. apply sockets_set_nodup; [exact Hsocks|].
    intros key c Hc. apply Hconn in Hc. cbn. lia.
  - cbn in H. apply JsMap_set_in in H.
    destruct H as [E|H]; [now inversion E | now apply Hconn in H].
  - cbn in H. apply JsMap_set_in in H. destruct H as [E|H].
    + inversion E. cbn. lia.
    + apply Hconn in H. cbn. lia.
  - cbn in H. apply JsMap_set_in in H. destruct H as [E|H].
    + inversion E. cbn [conn_socket]. now apply listener_of_new.
    + apply Hconn in H. apply listener_of_old; tauto.
  - intros k kind id Hin. rewrite listeners_accepted_state in Hin.
    apply in_app_or in Hin. destruct Hin as [Hin|Hin].
    + apply Hlis in Hin. cbn. lia.
    + cbn in Hin. cbn.
      destruct Hin as [E|[E|[E|[]]]]; inversion E; lia.
  - intros k Hk. cbn in Hk.
    destruct (Nat.eq_dec k (pairs s)) as [->|Hne].
    + eexists. now apply listener_of_new.
    + destruct (Hall k) as [id Hid]; [lia|].
      exists id. apply listener_of_old; [lia | exact Hid].
Qed.

Lemma registry_ok_same (s s' : State) :
  connections s' = connections s -> listeners s' = listeners s ->
  pairs s' = pairs s -> registry_ok s -> registry_ok s'.
Proof using Type.
  clear JSON_parse JSON_stringify randomUUID toISOString send_throws.
  unfold registry_ok, listener_of. intros -> -> ->. tauto.
Qed.

Lemma registry_ok_cleanup (id : string) (s : State) :
  registry_ok s -> registry_ok (with_connections (JsMap.delete id) s).
Proof using Type.
  clear JSON_parse JSON_stringify randomUUID toISOString send_throws.
  intros (Hkeys & Hsocks & Hconn & Hlis & Hall).
  unfold registry_ok, listener_of. cbn.
  rewrite (JsMap_delete_filter id _ Hkeys).
  repeat split.
  - now apply map_filter_nodup.
  - rewrite sockets_of_map in Hsocks. rewrite map_map.
    now apply map_filter_nodup.
  - apply filter_In in H. destruct H as [H _]. now apply Hconn in H.
  - apply filter_In in H. destruct H as [H _]. now apply Hconn in H.
  - apply filter_In in H. destruct H as [H _]. apply Hconn in H.
    apply H.
  - exact Hlis.
  - exact Hall.
Qed.

Lemma listeners_pruned_state (s : State) :
  listeners (pruned_state s) = listeners s.
Proof using Type.
  clear JSON_parse JSON_stringify randomUUID toISOString send_throws.
  unfold pruned_state. now destruct (200 <? length (store s)).
Qed.

Lemma pairs_pruned_state (s : State) : pairs (pruned_state s) = pairs s.
Proof using Type.
  clear JSON_parse JSON_stringify randomUUID toISOString send_throws.
  unfold pruned_state. now destruct (200 <? length (store s)).
Qed.

(** The [message] listener leaves the registry, the listeners and the
    socket pairs alone. *)
Lemma on_message_keeps_registry (d : MessageData) (s : State) :
  connections (state_of (on_message d s)) = connections s
  /\ listeners (state_of (on_message d s)) = listeners s
  /\ pairs (state_of (on_message d s)) = pairs s.
Proof.
  rewrite on_message_eq.
  destruct (verdict d) as [[|]|[|]|text alias color]; cbn; auto.
  unfold stored_state.
  now rewrite connections_pruned_state, listeners_pruned_state,
    pairs_pruned_state.
Qed.

#[local] Instance registry_rel_chain : Chain registry_rel.
Proof. split; unfold registry_rel; auto. Qed.

Lemma registry_rel_run (evs : list Event) : respects registry_rel (run evs).
Proof.
  apply respects_run; try typeclasses eauto.
  - intros upgrade s H. destruct (no_upgrade upgrade) eqn:Hu.
    + now rewrite (GET_refused _ _ Hu).
    + rewrite (GET_eq _ _ Hu). now apply registry_ok_accepted_state.
  - intros d s H.
    destruct (on_message_keeps_registry d s) as (Hc & Hl & Hp).
    now apply (registry_ok_same s).
  - intros id s H. rewrite cleanup_eq. now apply registry_ok_cleanup.
  - intros e s H. exact H.
  - intros s H. exact H.
Qed.

Lemma registry_ok_initial : registry_ok initial.
Proof using Type.
  clear JSON_parse JSON_stringify randomUUID toISOString send_throws.
  unfold registry_ok, listener_of. cbn.
  repeat split; try constructor; try tauto; lia.
Qed.

Lemma registry_ok_run (evs : list Event) :
  registry_ok (state_of (run evs initial)).
Proof. apply registry_rel_run, registry_ok_initial. Qed.

Lemma nodup_below_length (l : list nat) (n : nat) :
  NoDup l -> (forall x, In x l -> x < n) -> length l <= n.
Proof using Type.
  clear JSON_parse JSON_stringify randomUUID toISOString send_throws.
  intros Hnd Hlt.
  assert (H : length l <= length (seq 0 n)).
  { apply NoDup_incl_length; [exact Hnd|].
    intros x Hx. apply in_seq. apply Hlt in Hx. lia. }
  now rewrite length_seq in H.
Qed.


Lemma reachable_registry_ok (s : State) : reachable s -> registry_ok s.
Proof.
  induction 1 as [|ev s _ IH]; [exact registry_ok_initial|].
  apply (registry_rel_run [ev]) in IH. revert IH.
  unfold run, state_of, for_of, bind, ret.
  destruct (step ev s) as [[[[]|e] s1] t1]; cbn; tauto.
Qed.

Lemma nodup_map_injective {A B : Type} (f : A -> B) (l : list A) (x y : A) :
  NoDup (map f l) -> In x l -> In y l -> f x = f y -> x = y.
Proof using Type.
  clear JSON_parse JSON_stringify randomUUID toISOString send_throws.
  induction l as [|a l IH]; cbn; [tauto|]. intros H Hx Hy E.
  inversion H as [|? ? Hnot Hl]; subst.
  destruct Hx as [->|Hx], Hy as [->|Hy]; auto.
  - exfalso. apply Hnot. rewrite E. now apply in_map.
  - exfalso. apply Hnot. rewrite <- E. now apply in_map.
Qed.

Lemma filter_out_one {V : Type} (k : string) (m : JsMap.t V) :
  NoDup (JsMap.keys m) -> In k (JsMap.keys m) ->
  S (length (filter (fun kv => negb (String.eqb k (fst kv))) m)) = length m.
Proof using Type.
  clear JSON_parse JSON_stringify randomUUID toISOString send_throws.
  unfold JsMap.keys.
  induction m as [|[k0 v0] m IH]; cbn; [tauto|]. intros H Hin.
  inversion H as [|? ? Hnot Hm]; subst.
  destruct (String.eqb_spec k k0) as [->|E]; cbn.
  - f_equal. rewrite <- (JsMap_delete_filter k0 m Hm).
    now rewrite JsMap_delete_absent.
  - f_equal. apply IH; [exact Hm|]. destruct Hin as [Hin|Hin]; congruence.
Qed.

Lemma state_of_triple {A : Type} (r : Result A) (s : State) (t : list Effect) :
  state_of (r, s, t) = s.
Proof using Type. reflexivity. Qed.

Lemma log_of_triple {A : Type} (r : Result A) (s : State) (t : list Effect) :
  log_of (r, s, t) = t.
Proof using Type. reflexivity. Qed.

Lemma dispatch_single (k : WebSocket) (kind : EventKind) (id : string)
  (body : string -> M unit) (s : State) :
  filter (listens k kind) (listeners s) = [(k, kind, id)] ->
  dispatch k kind body s
  = (Return tt, state_of (body id s),
     log_of (body id s)
     ++ match result_of (body id s) with
        | Throw e => [Uncaught e]
        | Return _ => []
        end).
Proof using Type.
  clear JSON_parse JSON_stringify randomUUID toISOString send_throws.
  intros H. unfold dispatch, gets, bind at 1. rewrite H.
  cbn [for_of snd]. unfold bind, try_catch, emit, ret, state_of, log_of,
    result_of.
  destruct (body id s) as [[[[]|e] s1] t1]; cbn; now rewrite ?app_nil_r.
Qed.

(** X7. In every state the event loop reaches, the keys of the registry
    are pairwise different, each key is the id of its connection, the
    sockets of the registered connections are pairwise different and
    were all created by [GET], and the registry holds no more
    connections than socket pairs were created. *)
Theorem registry_stays_consistent (evs : list Event) :
  NoDup (JsMap.keys (connections (state_of (run evs initial))))
  /\ NoDup (sockets_of (connections (state_of (run evs initial))))
  /\ (forall key c,
        In (key, c) (connections (state_of (run evs initial))) ->
        conn_id c = key /\ conn_socket c < pairs (state_of (run evs initial)))
  /\ JsMap.size (connections (state_of (run evs initial)))
     <= pairs (state_of (run evs initial)).
Proof.
  destruct (registry_ok_run evs) as (Hkeys & Hsocks & Hconn & _).
  repeat split; try assumption; try (now apply Hconn in H).
  unfold JsMap.size.
  replace (length (connections (state_of (run evs initial))))
    with (length (sockets_of (connections (state_of (run evs initial)))))
    by (unfold sockets_of, JsMap.values; now rewrite !length_map).
  apply nodup_below_length; [exact Hsocks|].
  intros x Hx. rewrite sockets_of_map in Hx. apply in_map_iff in Hx.
  destruct Hx as ([key c] & <- & Hc). now apply Hconn in Hc.
Qed.

(** X8. In every state the event loop reaches, one [broadcast] tries each
    socket at most once: no client is sent the same event twice. *)
Theorem broadcast_never_sends_twice
  (evs : list Event) (data : Json) (options : option BroadcastOptions) :
  NoDup (map fst (sends (log_of (broadcast data options
                                   (state_of (run evs initial)))))).
Proof.
  destruct (registry_ok_run evs) as (_ & Hsocks & _).
  rewrite broadcast_eq. unfold log_of. cbn [snd sends flat_map app].
  fold (sends (fan_out (JSON_stringify data)
          (filter (fun c => negb (excluded options c))
             (JsMap.values (connections (state_of (run evs initial))))))).
  rewrite sends_fan_out, map_map. cbn [fst].
  now apply map_filter_nodup.
Qed.

(** X9. In a state the event loop reaches, [cleanup] for a registered id
    removes that connection and no other, keeps the others in their
    order, and announces the count, now one less, to the connections
    that remain: the socket of the removed connection is sent nothing. *)
Theorem cleanup_removes_exactly_one
  (id : string) (c : Connection) (s : State) :
  reachable s ->
  In (id, c) (connections s) ->
  connections (state_of (cleanup id s))
  = filter (fun kv => negb (String.eqb id (fst kv))) (connections s)
  /\ S (JsMap.size (connections (state_of (cleanup id s))))
     = JsMap.size (connections s)
  /\ stringified (log_of (cleanup id s))
     = [presence_event (JsMap.size (connections s) - 1)]
  /\ sends (log_of (cleanup id s))
     = map (fun c' => (conn_socket c',
                       JSON_stringify
                         (presence_event (JsMap.size (connections s) - 1))))
         (JsMap.values
            (filter (fun kv => negb (String.eqb id (fst kv))) (connections s)))
  /\ ~ In (conn_socket c) (map fst (sends (log_of (cleanup id s)))).
Proof.
  intros Hreach Hin.
  destruct (reachable_registry_ok s Hreach) as (Hkeys & Hsocks & Hconn & _).
  assert (Hkey : In id (JsMap.keys (connections s)))
    by (apply JsMap_keys_in; now exists c).
  pose proof (filter_out_one id (connections s) Hkeys Hkey) as Hlen.
  rewrite cleanup_eq. unfold state_of, log_of. cbn [fst snd connections
    with_connections].
  rewrite (JsMap_delete_filter id _ Hkeys).
  set (rest := filter (fun kv => negb (String.eqb id (fst kv))) (connections s))
    in *.
  assert (Hsize : JsMap.size rest = JsMap.size (connections s) - 1)
    by (unfold JsMap.size; lia).
  repeat split.
  - exact Hlen.
  - change (stringified (MapDelete id :: ?t)) with (stringified t).
    now rewrite stringified_announce, Hsize.
  - change (sends (MapDelete id :: ?t)) with (sends t).
    now rewrite sends_announce, Hsize.
  - change (sends (MapDelete id :: ?t)) with (sends t).
    rewrite sends_announce, map_map. cbn [fst].
    unfold JsMap.values. rewrite map_map. intros Hc.
    apply in_map_iff in Hc. destruct Hc as ([key c'] & E & Hc'). cbn in E.
    apply filter_In in Hc'. destruct Hc' as [Hc' Hne].
    rewrite sockets_of_map in Hsocks.
    assert (Eq : (key, c') = (id, c))
      by (apply (nodup_map_injective _ _ _ _ Hsocks Hc' Hin); exact E).
    inversion Eq; subst. cbn in Hne. now rewrite String.eqb_refl in Hne.
Qed.



(** *** Trimming *)

Lemma append_nil_r (s : string) : (s ++ "")%string = s.
Proof using Type.
  clear JSON_parse JSON_stringify randomUUID toISOString send_throws.
  induction s as [|c s IH]; cbn; congruence.
Qed.

Lemma append_assoc (a b c : string) :
  ((a ++ b) ++ c)%string = (a ++ (b ++ c))%string.
Proof using Type.
  clear JSON_parse JSON_stringify randomUUID toISOString send_throws.
  induction a as [|x a IH]; cbn; congruence.
Qed.

Lemma rev_append_reverse (s acc : string) :
  Js.rev_append s acc = (Js.reverse s ++ acc)%string.
Proof using Type.
  clear JSON_parse JSON_stringify randomUUID toISOString send_throws.
  unfold Js.reverse. revert acc.
  induction s as [|c s IH]; intros acc; cbn; [reflexivity|].
  rewrite (IH (String c acc)), (IH (String c "")), append_assoc.
  reflexivity.
Qed.

Lemma reverse_cons (c : ascii) (s : string) :
  Js.reverse (String c s) = (Js.reverse s ++ String c "")%string.
Proof using Type.
  clear JSON_parse JSON_stringify randomUUID toISOString send_throws.
  unfold Js.reverse at 1. cbn. apply rev_append_reverse.
Qed.

Lemma reverse_app (a b : string) :
  Js.reverse (a ++ b) = (Js.reverse b ++ Js.reverse a)%string.
Proof using Type.
  clear JSON_parse JSON_stringify randomUUID toISOString send_throws.
  induction a as [|x a IH]; cbn [append].
  - now rewrite append_nil_r.
  - now rewrite !reverse_cons, IH, append_assoc.
Qed.

Lemma reverse_involutive (s : string) : Js.reverse (Js.reverse s) = s.
Proof using Type.
  clear JSON_parse JSON_stringify randomUUID toISOString send_throws.
  induction s as [|c s IH]; [reflexivity|].
  now rewrite reverse_cons, reverse_app, IH.
Qed.

Lemma trimStart_suffix (s : string) :
  exists p, s = (p ++ Js.trimStart s)%string.
Proof using Type.
  clear JSON_parse JSON_stringify randomUUID toISOString send_throws.
  induction s as [|c s [p IH]]; [now exists ""|]. cbn.
  destruct (Js.is_white_space c).
  - exists (String c p). cbn. now rewrite <- IH.
  - now exists "".
Qed.

Lemma trimStart_head (s : string) (c : ascii) (r : string) :
  Js.trimStart s = String c r -> Js.is_white_space c = false.
Proof using Type.
  clear JSON_parse JSON_stringify randomUUID toISOString send_throws.
  induction s as [|x s IH]; cbn; [discriminate|].
  destruct (Js.is_white_space x) eqn:Hx; [exact IH|].
  intros E. now inversion E; subst.
Qed.

Lemma trimEnd_prefix (s : string) :
  exists q, s = (Js.trimEnd s ++ q)%string.
Proof using Type.
  clear JSON_parse JSON_stringify randomUUID toISOString send_throws.
  unfold Js.trimEnd.
  destruct (trimStart_suffix (Js.reverse s)) as [p Hp].
  exists (Js.reverse p).
  rewrite <- reverse_app, <- Hp. now rewrite reverse_involutive.
Qed.

Lemma trim_head (s : string) (c : ascii) (r : string) :
  Js.trim s = String c r -> Js.is_white_space c = false.
Proof using Type.
  clear JSON_parse JSON_stringify randomUUID toISOString send_throws.
  unfold Js.trim. intros E.
  destruct (trimEnd_prefix (Js.trimStart s)) as [q Hq].
  rewrite E in Hq. cbn in Hq. now apply trimStart_head in Hq.
Qed.

Lemma text_ok_truncate_trim (t : string) :
  Js.trim t <> "" -> text_ok (truncate 480 (Js.trim t)).
Proof using Type.
  clear JSON_parse JSON_stringify randomUUID toISOString send_throws.
  intros Hne. destruct (Js.trim t) as [|c r] eqn:E; [contradiction|].
  apply trim_head in E. split.
  - rewrite truncate_length. cbn [String.length]. lia.
  - exists c. eexists. split; [reflexivity | exact E].
Qed.

(** *** The shape of stored messages *)

Lemma tag_ok_sliced (v r : option Json) (n : nat) (fallback : string) :
  0 < n -> 1 <= String.length fallback <= n ->
  sliced v (Z.of_nat n) = Some r ->
  tag_ok n (or_else r (JString fallback)).
Proof using Type.
  clear JSON_parse JSON_stringify randomUUID toISOString send_throws.
  intros Hn Hfb Hs.
  destruct v as [[ | b | q | a | items | fs]|]; cbn in Hs;
    try discriminate; inversion Hs; subst; clear Hs; cbn [or_else truthy].
  - left. now exists fallback.
  - rewrite String_slice_prefix.
    destruct (String.eqb_spec (truncate n a) "") as [E|E]; cbn [negb]; left.
    + now exists fallback.
    + exists (truncate n a). split; [reflexivity|].
      assert (String.length (truncate n a) <> 0)
        by (destruct (truncate n a); [contradiction | discriminate]).
      rewrite truncate_length in *. lia.
  - right. eexists. split; [reflexivity|].
    rewrite Array_slice_prefix, length_firstn. lia.
  - left. now exists fallback.
Qed.

Lemma verdict_accepted_shape (d : MessageData) (text : string)
  (alias color : option Json) (s : State) :
  verdict d = Accepted text alias color ->
  message_ok (built_message text alias color s).
Proof.
  destruct d as [|str]; [discriminate|]. unfold verdict.
  destruct (JSON_parse str) as [data|]; [|discriminate].
  destruct data as [ | b | q | str' | items | fields]; try discriminate.
  destruct (is_not_message _); [discriminate|].
  destruct (negb _); [discriminate|].
  destruct (field "text" _) as [[ | b | q | t | items | fs]|];
    try discriminate.
  destruct (String.eqb_spec (Js.trim t) "") as [|Hne]; [discriminate|].
  destruct (sliced (field "alias" _) 48) as [a|] eqn:Ha; [|discriminate].
  destruct (sliced (field "color" _) 64) as [c|] eqn:Hc; [|discriminate].
  intros E. inversion E; subst. repeat split.
  - change 480%Z with (Z.of_nat 480). rewrite String_slice_prefix.
    now apply text_ok_truncate_trim.
  - change 480%Z with (Z.of_nat 480). rewrite String_slice_prefix.
    now apply text_ok_truncate_trim.
  - change 480%Z with (Z.of_nat 480). rewrite String_slice_prefix.
    now apply text_ok_truncate_trim.
  - cbn. apply (tag_ok_sliced _ _ 48 "Anonymous" ltac:(lia) ltac:(cbn; lia) Ha).
  - cbn. apply (tag_ok_sliced _ _ 64 "bg-slate-100 text-slate-900"
                  ltac:(lia) ltac:(cbn; lia) Hc).
Qed.

Lemma Forall_skipn {A : Type} (P : A -> Prop) (n : nat) (l : list A) :
  Forall P l -> Forall P (skipn n l).
Proof using Type.
  clear JSON_parse JSON_stringify randomUUID toISOString send_throws.
  intros H. apply Forall_forall. intros x Hx. apply in_skipn in Hx.
  revert x Hx. now apply Forall_forall.
Qed.

#[local] Instance shape_rel_chain : Chain shape_rel.
Proof. split; unfold shape_rel; auto. Qed.

Lemma shape_rel_run (evs : list Event) : respects shape_rel (run evs).
Proof.
  apply respects_run; try typeclasses eauto.
  - intros upgrade s H. destruct (no_upgrade upgrade) eqn:Hu.
    + now rewrite (GET_refused _ _ Hu).
    + now rewrite (GET_eq _ _ Hu).
  - intros d s H. rewrite on_message_eq.
    destruct (verdict d) as [[|]|[|]|text alias color] eqn:Hv; try exact H.
    unfold state_of, message_outcome. cbn [fst snd].
    rewrite store_stored_state, append_and_trim_lastn.
    apply Forall_skipn, Forall_app. split; [exact H|].
    constructor; [|constructor]. now apply (verdict_accepted_shape d).
  - intros id s H. now rewrite cleanup_eq.
  - intros e s H. exact H.
  - intros s H. exact H.
Qed.


(** X11. Every message the store holds, in every state the event loop
    reaches, has a text of 1 to 480 characters that does not start with
    white space, and an alias and a color that are non-empty strings of
    at most 48 and 64 characters or arrays of at most as many
    elements. *)
Theorem stored_messages_are_well_shaped (evs : list Event) :
  Forall
    (fun m =>
       (1 <= String.length (msg_text m) <= 480
        /\ exists c r, msg_text m = String c r /\ Js.is_white_space c = false)
       /\ ((exists a, msg_alias m = JString a /\ 1 <= String.length a <= 48)
           \/ (exists items, msg_alias m = JArray items /\ length items <= 48))
       /\ ((exists a, msg_color m = JString a /\ 1 <= String.length a <= 64)
           \/ (exists items, msg_color m = JArray items /\ length items <= 64)))
    (store (state_of (run evs initial))).
Proof.
  apply (shape_rel_run evs initial). constructor.
Qed.

(** *** Identifiers along a run *)

Lemma nodup_skipn {A : Type} (n : nat) (l : list A) :
  NoDup l -> NoDup (skipn n l).
Proof using Type.
  clear JSON_parse JSON_stringify randomUUID toISOString send_throws.
  revert l. induction n as [|n IH]; intros [|a l] H; cbn; auto.
  inversion H; subst. now apply IH.
Qed.

Lemma store_ids_held (s : State) (m : ChatMessage) :
  In m (store s) -> In (msg_id m) (held_ids s).
Proof using Type.
  clear JSON_parse JSON_stringify randomUUID toISOString send_throws.
  intros H. apply in_or_app. right. apply in_map.
  eapply in_nth_concat. exact H.
Qed.

#[local] Instance ids_rel_chain : Chain ids_rel.
Proof. split; unfold ids_rel; auto. Qed.

Lemma ids_apart_accepted_state (s : State) :
  (forall i j, randomUUID i = randomUUID j -> i = j) ->
  ids_apart s -> ids_apart (accepted_state s).
Proof.
  intros Hinj (Hwf & Hnd & Hdis). split; [now apply wf_accepted_state|].
  split; [exact Hnd|].
  intros m Hm Hin. change (store (accepted_state s)) with (store s) in Hm.
  cbn in Hin. apply JsMap_keys_in in Hin. destruct Hin as [c Hc].
  apply JsMap_set_in in Hc. destruct Hc as [E|Hc].
  - inversion E as [[Eid Ec]].
    apply (fresh_draw s Hinj Hwf). rewrite <- Eid.
    now apply store_ids_held.
  - apply (Hdis m Hm). apply JsMap_keys_in. now exists c.
Qed.

Lemma ids_apart_stored_state (text : string) (alias color : option Json)
  (s : State) :
  (forall i j, randomUUID i = randomUUID j -> i = j) ->
  ids_apart s ->
  ids_apart (stored_state (built_message text alias color s) s).
Proof.
  intros Hinj (Hwf & Hnd & Hdis).
  pose proof (fresh_draw s Hinj Hwf) as Hfresh.
  split; [now apply wf_stored_state|].
  rewrite store_stored_state, append_and_trim_lastn.
  unfold stored_state. rewrite connections_pruned_state.
  change (connections (assign_history _ (next_draw s))) with (connections s).
  split.
  - unfold lastn. rewrite <- skipn_map. apply nodup_skipn.
    rewrite map_app. cbn [map]. apply NoDup_app; [exact Hnd | | ].
    + repeat constructor. intros [].
    + intros id Hid [<-|[]]. apply Hfresh.
      apply in_map_iff in Hid. destruct Hid as (m & E & Hm).
      cbn in E. rewrite <- E. now apply store_ids_held.
  - intros m Hm Hin. apply in_skipn in Hm. apply in_app_or in Hm.
    destruct Hm as [Hm|[<-|[]]].
    + now apply (Hdis m).
    + apply Hfresh. apply in_or_app. now left.
Qed.

Lemma ids_rel_run (evs : list Event) :
  (forall i j, randomUUID i = randomUUID j -> i = j) ->
  respects ids_rel (run evs).
Proof.
  intros Hinj. apply respects_run; try typeclasses eauto.
  - intros upgrade s H. destruct (no_upgrade upgrade) eqn:Hu.
    + now rewrite (GET_refused _ _ Hu).
    + rewrite (GET_eq _ _ Hu). now apply ids_apart_accepted_state.
  - intros d s H. rewrite on_message_eq.
    destruct (verdict d) as [[|]|[|]|text alias color]; try exact H.
    + destruct H as (Hwf & Hnd & Hdis).
      split; [now apply wf_next_draw | now split].
    + now apply ids_apart_stored_state.
  - intros id s (Hwf & Hnd & Hdis). rewrite cleanup_eq.
    split; [now apply wf_cleanup_state|]. split; [exact Hnd|].
    intros m Hm Hin. apply (Hdis m Hm).
    cbn in Hin. apply JsMap_keys_in in Hin. destruct Hin as [c Hc].
    apply JsMap_delete_in in Hc. apply JsMap_keys_in. now exists c.
  - intros e s H. exact H.
  - intros s (Hwf & Hnd & Hdis). split; [|now split].
    destruct Hwf as (H1 & H2 & H3). repeat split; auto.
Qed.

(** X12. When [crypto.randomUUID] never repeats itself, the messages of
    the store have pairwise different ids in every state the event loop
    reaches, and none of them is the id of a registered connection. *)
Theorem stored_ids_are_unique (evs : list Event) :
  (forall i j, randomUUID i = randomUUID j -> i = j) ->
  NoDup (map msg_id (store (state_of (run evs initial))))
  /\ (forall m key c,
        In m (store (state_of (run evs initial))) ->
        In (key, c) (connections (state_of (run evs initial))) ->
        msg_id m <> key /\ msg_id m <> conn_id c).
Proof.
  intros Hinj.
  destruct (ids_rel_run evs Hinj initial) as ((_ & Hkey & _) & Hnd & Hdis).
  - split; [exact wf_initial|]. split; [constructor | intros m []].
  - split; [exact Hnd|]. intros m key c Hm Hc.
    assert (Hne : msg_id m <> key).
    { intros E. apply (Hdis m Hm). apply JsMap_keys_in. exists c. now subst. }
    split; [exact Hne|]. now rewrite (Hkey key c Hc).
Qed.


(** *** The persona of the page *)

Lemma buildAlias_mod (seed : nat) : buildAlias seed = buildAlias (seed mod 13).
Proof using Type.
  clear JSON_parse JSON_stringify randomUUID toISOString send_throws.
  unfold buildAlias. change (length adjectives) with 13.
  change (length animals) with 13. now rewrite Nat.Div0.mod_mod.
Qed.

Lemma buildColor_mod (seed : nat) : buildColor seed = buildColor (seed mod 7).
Proof using Type.
  clear JSON_parse JSON_stringify randomUUID toISOString send_throws.
  unfold buildColor. change (length palette) with 7.
  now rewrite Nat.Div0.mod_mod.
Qed.

Lemma below_13 (P : nat -> Prop) :
  P 0 -> P 1 -> P 2 -> P 3 -> P 4 -> P 5 -> P 6 -> P 7 -> P 8 -> P 9 ->
  P 10 -> P 11 -> P 12 -> forall i, i < 13 -> P i.
Proof using Type.
  clear JSON_parse JSON_stringify randomUUID toISOString send_throws.
  intros. do 13 (destruct i as [|i]; [assumption|]). lia.
Qed.

Lemma below_7 (P : nat -> Prop) :
  P 0 -> P 1 -> P 2 -> P 3 -> P 4 -> P 5 -> P 6 -> forall i, i < 7 -> P i.
Proof using Type.
  clear JSON_parse JSON_stringify randomUUID toISOString send_throws.
  intros. do 7 (destruct i as [|i]; [assumption|]). lia.
Qed.

Lemma buildAlias_injective (i j : nat) :
  i < 13 -> j < 13 -> buildAlias i = buildAlias j -> i = j.
Proof using Type.
  clear JSON_parse JSON_stringify randomUUID toISOString send_throws.
  intros Hi. revert j. revert i Hi.
  apply (below_13 (fun i => forall j, j < 13 ->
                     buildAlias i = buildAlias j -> i = j));
    intros j Hj; revert j Hj;
    apply (below_13 (fun j => buildAlias _ = buildAlias j -> _ = j));
    intros E; try reflexivity; discriminate E.
Qed.

Lemma buildColor_injective (i j : nat) :
  i < 7 -> j < 7 -> buildColor i = buildColor j -> i = j.
Proof using Type.
  clear JSON_parse JSON_stringify randomUUID toISOString send_throws.
  intros Hi. revert j. revert i Hi.
  apply (below_7 (fun i => forall j, j < 7 ->
                    buildColor i = buildColor j -> i = j));
    intros j Hj; revert j Hj;
    apply (below_7 (fun j => buildColor _ = buildColor j -> _ = j));
    intros E; try reflexivity; discriminate E.
Qed.

Lemma buildAlias_shape (seed : nat) :
  exists adjective animal,
    In adjective adjectives /\ In animal animals
    /\ buildAlias seed = (adjective ++ " " ++ animal)%string
    /\ 1 <= String.length (buildAlias seed) <= 48.
Proof using Type.
  clear JSON_parse JSON_stringify randomUUID toISOString send_throws.
  rewrite buildAlias_mod.
  assert (H : seed mod 13 < 13) by (apply Nat.mod_upper_bound; lia).
  revert H. generalize (seed mod 13).
  apply below_13; do 2 eexists; (split; [|split; [|split]]);
    try reflexivity; cbn; try lia; tauto.
Qed.

Lemma buildColor_shape (seed : nat) :
  exists c, buildColor seed = Some c /\ In c palette
            /\ 1 <= String.length c <= 64.
Proof using Type.
  clear JSON_parse JSON_stringify randomUUID toISOString send_throws.
  rewrite buildColor_mod.
  assert (H : seed mod 7 < 7) by (apply Nat.mod_upper_bound; lia).
  revert H. generalize (seed mod 7).
  apply below_7; eexists; (split; [|split]);
    try reflexivity; cbn; try lia; tauto.
Qed.

Lemma mod_91_13 (a : nat) : (a mod 91) mod 13 = a mod 13.
Proof using Type.
  clear JSON_parse JSON_stringify randomUUID toISOString send_throws.
  change 91 with (13 * 7). rewrite Nat.Div0.mod_mul_r.
  rewrite (Nat.mul_comm 13), Nat.Div0.mod_add. apply Nat.Div0.mod_mod.
Qed.

Lemma mod_91_7 (a : nat) : (a mod 91) mod 7 = a mod 7.
Proof using Type.
  clear JSON_parse JSON_stringify randomUUID toISOString send_throws.
  change 91 with (7 * 13). rewrite Nat.Div0.mod_mul_r.
  rewrite (Nat.mul_comm 7), Nat.Div0.mod_add. apply Nat.Div0.mod_mod.
Qed.

Lemma residues_below_91 (r1 r2 : nat) :
  r1 < 91 -> r2 < 91 -> r1 mod 13 = r2 mod 13 -> r1 mod 7 = r2 mod 7 ->
  r1 = r2.
Proof using Type.
  clear JSON_parse JSON_stringify randomUUID toISOString send_throws.
  intros H1 H2 E13 E7.
  assert (C : forallb (fun i => forallb (fun j =>
                implb ((i mod 13 =? j mod 13) && (i mod 7 =? j mod 7))
                      (i =? j))
                (seq 0 91)) (seq 0 91) = true) by (vm_compute; reflexivity).
  rewrite forallb_forall in C. specialize (C r1).
  rewrite forallb_forall in C.
  specialize (C ltac:(apply in_seq; lia) r2 ltac:(apply in_seq; lia)).
  rewrite E13, E7, !Nat.eqb_refl in C. cbn in C. now apply Nat.eqb_eq.
Qed.

(** X13. For every seed the page has a persona: the alias is an adjective
    and an animal of the tables joined by a space, the color is an entry
    of the palette, and nothing is [undefined]. Adjective and animal are
    read at the same index, so that two seeds give the same persona
    exactly when they agree modulo 91: there are 13 aliases and 91
    personas, not 169 and 1183. *)
Theorem persona_of_a_seed (seed : nat) :
  (exists adjective animal,
     In adjective adjectives /\ In animal animals
     /\ buildAlias seed = (adjective ++ " " ++ animal)%string)
  /\ (exists c, buildColor seed = Some c /\ In c palette)
  /\ (forall other, buildAlias seed = buildAlias other
                    <-> seed mod 13 = other mod 13)
  /\ (forall other, build_persona seed = build_persona other
                    <-> seed mod 91 = other mod 91).
Proof using Type.
  clear JSON_parse JSON_stringify randomUUID toISOString send_throws.
  assert (Ha : forall other, buildAlias seed = buildAlias other
                             <-> seed mod 13 = other mod 13).
  { intros other. split.
    - rewrite (buildAlias_mod seed), (buildAlias_mod other).
      apply buildAlias_injective; apply Nat.mod_upper_bound; lia.
    - intros E. now rewrite (buildAlias_mod seed), (buildAlias_mod other), E. }
  assert (Hc : forall other, buildColor seed = buildColor other
                             <-> seed mod 7 = other mod 7).
  { intros other. split.
    - rewrite (buildColor_mod seed), (buildColor_mod other).
      apply buildColor_injective; apply Nat.mod_upper_bound; lia.
    - intros E. now rewrite (buildColor_mod seed), (buildColor_mod other), E. }
  split; [|split; [|split; [exact Ha|]]].
  - destruct (buildAlias_shape seed) as (adj & ani & H1 & H2 & H3 & _).
    now exists adj, ani.
  - destruct (buildColor_shape seed) as (c & H1 & H2 & _). now exists c.
  - intros other. unfold build_persona. split.
    + intros E. inversion E as [[E1 E2]].
      apply Ha in E1. apply Hc in E2.
      apply residues_below_91; try (apply Nat.mod_upper_bound; lia);
        now rewrite ?mod_91_13, ?mod_91_7.
    + intros E.
      assert (E1 : seed mod 13 = other mod 13)
        by (now rewrite <- (mod_91_13 seed), E, mod_91_13).
      assert (E2 : seed mod 7 = other mod 7)
        by (now rewrite <- (mod_91_7 seed), E, mod_91_7).
      apply Ha in E1. apply Hc in E2. now rewrite E1, E2.
Qed.


(** *** More on trimming *)

Lemma append_length (a b : string) :
  String.length (a ++ b) = String.length a + String.length b.
Proof using Type.
  clear JSON_parse JSON_stringify randomUUID toISOString send_throws.
  induction a as [|c a IH]; cbn; congruence.
Qed.

Lemma trim_length (s : string) : String.length (Js.trim s) <= String.length s.
Proof using Type.
  clear JSON_parse JSON_stringify randomUUID toISOString send_throws.
  unfold Js.trim.
  destruct (trimStart_suffix s) as [p Hp].
  destruct (trimEnd_prefix (Js.trimStart s)) as [q Hq].
  apply (f_equal String.length) in Hp, Hq.
  rewrite append_length in Hp, Hq. lia.
Qed.

Lemma trimStart_app_solid (y : string) (c : ascii) (z : string) :
  Js.is_white_space c = false -> Js.trimStart (y ++ String c z) <> "".
Proof using Type.
  clear JSON_parse JSON_stringify randomUUID toISOString send_throws.
  intros Hc. induction y as [|x y IH]; cbn.
  - now rewrite Hc.
  - destruct (Js.is_white_space x); [exact IH | discriminate].
Qed.

Lemma trim_solid_head (c : ascii) (r : string) :
  Js.is_white_space c = false -> Js.trim (String c r) <> "".
Proof using Type.
  clear JSON_parse JSON_stringify randomUUID toISOString send_throws.
  intros Hc. unfold Js.trim. cbn [Js.trimStart]. rewrite Hc.
  unfold Js.trimEnd. rewrite reverse_cons. intros E.
  apply (f_equal Js.reverse) in E. rewrite reverse_involutive in E.
  now apply (trimStart_app_solid (Js.reverse r) c "" Hc).
Qed.

Lemma truncate_short (n : nat) (s : string) :
  String.length s <= n -> truncate n s = s.
Proof using Type.
  clear JSON_parse JSON_stringify randomUUID toISOString send_throws.
  unfold truncate. revert n.
  induction s as [|c s IH]; intros [|n] H; cbn in *; try reflexivity; try lia.
  rewrite IH; [reflexivity | lia].
Qed.

Lemma truncate_head (n : nat) (c : ascii) (r : string) :
  truncate (S n) (String c r) = String c (truncate n r).
Proof using Type. reflexivity. Qed.

(** What the server makes of a text that the page trimmed and cut. *)
Lemma trim_of_cut_text (text : string) :
  Js.trim text <> "" ->
  Js.trim (truncate 480 (Js.trim text)) <> ""
  /\ truncate 480 (Js.trim (truncate 480 (Js.trim text)))
     = Js.trim (truncate 480 (Js.trim text)).
Proof using Type.
  clear JSON_parse JSON_stringify randomUUID toISOString send_throws.
  intros Hne. split.
  - destruct (Js.trim text) as [|c r] eqn:E; [contradiction|].
    apply trim_head in E. change 480 with (S 479).
    rewrite truncate_head. now apply trim_solid_head.
  - apply truncate_short.
    etransitivity; [apply trim_length|]. rewrite truncate_length. lia.
Qed.

(** *** The handlers of the page *)

(** X14. [handleSubmit] sends at most one payload, and only for a text
    that is not blank over a socket that is open: otherwise it only
    prevents the default and leaves the page alone. When it sends, the
    payload is the serialised client message; [pending] is false
    afterwards whether or not [send] threw; the input is cleared when the
    payload went out and kept when [send] threw, in which case the
    failure is rethrown. *)
Theorem handleSubmit_sends_at_most_once (page : Page) :
  (Js.trim (input page) = "" \/ socketRef page = None
   \/ (exists ws, socketRef page = Some ws /\ readyState ws <> OPEN) ->
   handleSubmit page = (Return tt, [PreventDefault]))
  /\ (forall ws,
        Js.trim (input page) <> "" -> socketRef page = Some ws ->
        readyState ws = OPEN ->
        exists page',
          apply_effects (snd (handleSubmit page)) page = Some page'
          /\ pending page' = false
          /\ messages page' = messages page
          /\ page_sends (snd (handleSubmit page))
             = [(JSON_stringify (submit_payload page),
                 send_fails ws (JSON_stringify (submit_payload page)))]
          /\ (send_fails ws (JSON_stringify (submit_payload page)) = false ->
              fst (handleSubmit page) = Return tt /\ input page' = "")
          /\ (send_fails ws (JSON_stringify (submit_payload page)) = true ->
              fst (handleSubmit page) = Throw SendError
              /\ input page' = input page)).
Proof.
  split.
  - intros H. unfold handleSubmit, pbind, perform, pret.
    destruct (String.eqb_spec (Js.trim (input page)) "") as [E|E];
      [reflexivity|].
    destruct H as [H|[H|(ws & H & Hrs)]]; [contradiction | |];
      rewrite H; [reflexivity|].
    now destruct (readyState ws).
  - intros ws Hne Hws Hopen. unfold handleSubmit, pbind at 1, perform at 1.
    destruct (String.eqb_spec (Js.trim (input page)) "") as [E|_];
      [contradiction|].
    rewrite Hws, Hopen. unfold page_send.
    destruct (send_fails ws (JSON_stringify (submit_payload page)));
      cbn; eexists; repeat split; intros; discriminate.
Qed.

(** X15. What [handleSubmit] sends is a chat message for the server:
    when the persona comes from a seed and the text is not blank, the
    [message] listener of the route accepts the payload and stores a
    message with the alias and the color of the persona, unchanged, and
    with the text trimmed, cut to 480 characters, and trimmed once more
    by the server. *)
Theorem submitted_message_is_accepted (page : Page) (seed : nat) (s : State) :
  persona page = build_persona seed ->
  Js.trim (input page) <> "" ->
  JSON_parse (JSON_stringify (submit_payload page)) = Some (submit_payload page) ->
  exists m c,
    appended (log_of (on_message (Text (JSON_stringify (submit_payload page))) s))
    = [m]
    /\ msg_text m = Js.trim (truncate 480 (Js.trim (input page)))
    /\ msg_alias m = JString (buildAlias seed)
    /\ buildColor seed = Some c
    /\ msg_color m = JString c.
Proof.
  intros Hpersona Hne Hparse.
  destruct (buildAlias_shape seed) as (adj & ani & _ & _ & _ & Hlen).
  destruct (buildColor_shape seed) as (c & Hc & _ & Hclen).
  destruct (trim_of_cut_text (input page) Hne) as [Hne' Hcut].
  unfold submit_payload in Hparse |- *. rewrite Hpersona in Hparse |- *.
  cbn [persona alias colorClass build_persona] in Hparse |- *.
  rewrite Hc in Hparse |- *. cbn [app] in Hparse |- *.
  change 480%Z with (Z.of_nat 480) in Hparse |- *.
  rewrite String_slice_prefix in Hparse |- *.
  destruct (or_else_sliced (Some (buildAlias seed)) 48 "Anonymous")
    as (ra & Hra & Era); [lia|].
  destruct (or_else_sliced (Some c) 64 "bg-slate-100 text-slate-900")
    as (rc & Hrc & Erc); [lia|].
  rewrite on_message_eq.
  rewrite (verdict_accepted _ _ (truncate 480 (Js.trim (input page))) ra rc
             Hparse eq_refl eq_refl Hne' Hra Hrc).
  rewrite appended_message_outcome.
  eexists. exists c. split; [reflexivity|]. cbn [built_message msg_text
    msg_alias msg_color].
  change 480%Z with (Z.of_nat 480). rewrite String_slice_prefix.
  repeat split.
  - exact Hcut.
  - rewrite Era. cbn [clamp].
    destruct (String.eqb_spec (buildAlias seed) "") as [E|_].
    + rewrite E in Hlen. cbn in Hlen. lia.
    + now rewrite truncate_short by lia.
  - rewrite Erc. cbn [clamp].
    destruct (String.eqb_spec c "") as [E|_].
    + rewrite E in Hclen. cbn in Hclen. lia.
    + now rewrite truncate_short by lia.
Qed.

(** X16. The [message] listener of the page never throws, whatever the
    server sends: a payload that does not parse, or that is [null], is
    reported on the console, where the listener of the route throws on
    [null]. It calls at most one setter, and it sends nothing. The three
    events of the route are decoded into the setter each stands for. *)
Theorem page_listener_never_throws (d : MessageData) :
  fst (on_server_event d) = Return tt
  /\ one_update (snd (on_server_event d))
  /\ (forall str, d = Text str ->
        JSON_parse str = None \/ JSON_parse str = Some JNull ->
        snd (on_server_event d)
        = [PageConsoleError "Failed to parse server event"])
  /\ (forall str h, d = Text str -> JSON_parse str = Some (history_event h) ->
        snd (on_server_event d)
        = [SetMessages (Some (JArray (map json_of_message h)))])
  /\ (forall str m, d = Text str -> JSON_parse str = Some (message_event m) ->
        snd (on_server_event d) = [AppendMessage (Some (json_of_message m))])
  /\ (forall str n, d = Text str -> JSON_parse str = Some (presence_event n) ->
        snd (on_server_event d)
        = [SetOnlineCount (Some (JNumber (inject_Z (Z.of_nat n))))]).
Proof.
  assert (Hgen : fst (on_server_event d) = Return tt
                 /\ one_update (snd (on_server_event d))).
  { unfold on_server_event, page_parse, one_update.
    destruct d as [|str]; [cbn; auto 10|].
    destruct (JSON_parse str) as [[ | b | q | s' | items | fields]|];
      try solve [split; [reflexivity | auto 10]].
    unfold on_payload, page_field. cbn [pbind pret].
    destruct (assoc "type" fields) as [[ | b | q | ty | items | fs]|];
      try solve [split; [reflexivity | auto 10]].
    cbn [is_tag].
    destruct (String.eqb_spec ty "history") as [->|H1];
      [split; [reflexivity|]; right; left; now eexists|].
    destruct (String.eqb_spec ty "message") as [->|H2];
      [split; [reflexivity|]; right; right; left; now eexists|].
    destruct (String.eqb_spec ty "presence") as [->|H3];
      [split; [reflexivity|]; right; right; right; left; now eexists|].
    split; [reflexivity | now left]. }
  destruct Hgen as [Hr Hu]. split; [exact Hr|]. split; [exact Hu|].
  repeat split; intros; subst d; unfold on_server_event, page_parse.
  - destruct H0 as [H0|H0]; now rewrite H0.
  - now rewrite H0.
  - now rewrite H0.
  - now rewrite H0.
Qed.


(** *** The listeners' identifiers along a run *)

#[local] Instance listeners_rel_chain : Chain listeners_rel.
Proof. split; unfold listeners_rel; auto. Qed.

Lemma listeners_apart_mono (s s' : State) :
  listeners s' = listeners s -> drawn s <= drawn s' ->
  listeners_apart s -> listeners_apart s'.
Proof using Type.
  intros El Hd [H1 H2]. unfold listeners_apart. rewrite El. split; [|exact H2].
  intros k kind id Hin. destruct (H1 k kind id Hin) as (n & Hn & E).
  exists n. split; [lia | exact E].
Qed.

Lemma listeners_apart_accepted_state (s : State) :
  (forall i j, randomUUID i = randomUUID j -> i = j) ->
  listeners_apart s -> listeners_apart (accepted_state s).
Proof.
  intros Hinj [H1 H2].
  assert (Hnew : forall k kind id,
             In (k, kind, id)
                [(pairs s, OnMessage, randomUUID (drawn s));
                 (pairs s, OnClose, randomUUID (drawn s));
                 (pairs s, OnError, randomUUID (drawn s))] ->
             k = pairs s /\ id = randomUUID (drawn s)).
  { intros k kind id [E|[E|[E|[]]]]; inversion E; auto. }
  split.
  - intros k kind id Hin. rewrite listeners_accepted_state in Hin.
    apply in_app_or in Hin. destruct Hin as [Hin|Hin].
    + destruct (H1 k kind id Hin) as (n & Hn & E).
      exists n. cbn. split; [lia | exact E].
    + apply Hnew in Hin. destruct Hin as [_ ->].
      exists (drawn s). cbn. split; [lia | reflexivity].
  - intros k k' kind kind' id Hin Hin'.
    rewrite listeners_accepted_state in Hin, Hin'.
    apply in_app_or in Hin, Hin'.
    destruct Hin as [Hin|Hin], Hin' as [Hin'|Hin'].
    + now apply (H2 k k' kind kind' id).
    + apply Hnew in Hin'. destruct Hin' as [_ ->].
      destruct (H1 k kind _ Hin) as (n & Hn & E). apply Hinj in E. lia.
    + apply Hnew in Hin. destruct Hin as [_ ->].
      destruct (H1 k' kind' _ Hin') as (n & Hn & E). apply Hinj in E. lia.
    + apply Hnew in Hin, Hin'. destruct Hin, Hin'. congruence.
Qed.

Lemma drawn_on_message (d : MessageData) (s : State) :
  drawn s <= drawn (state_of (on_message d s)).
Proof.
  rewrite on_message_eq.
  destruct (verdict d) as [[|]|[|]|text alias color]; cbn; try lia.
  unfold stored_state. rewrite drawn_pruned_state. cbn. lia.
Qed.

Lemma listeners_rel_run (evs : list Event) :
  (forall i j, randomUUID i = randomUUID j -> i = j) ->
  respects listeners_rel (run evs).
Proof.
  intros Hinj. apply respects_run; try typeclasses eauto.
  - intros upgrade s H. destruct (no_upgrade upgrade) eqn:Hu.
    + now rewrite (GET_refused _ _ Hu).
    + rewrite (GET_eq _ _ Hu). now apply listeners_apart_accepted_state.
  - intros d s H.
    destruct (on_message_keeps_registry d s) as (_ & Hl & _).
    apply (listeners_apart_mono s);
      [exact Hl | apply drawn_on_message | exact H].
  - intros id s H. now rewrite cleanup_eq.
  - intros e s H. exact H.
  - intros s H. exact H.
Qed.

Lemma settled_initial : settled initial.
Proof.
  split; [exact registry_ok_initial|]. split; [exact wf_initial|].
  split; [|cbn; lia]. split; intros; cbn in *; tauto.
Qed.

Lemma settled_run (evs : list Event) (s : State) :
  (forall i j, randomUUID i = randomUUID j -> i = j) ->
  settled s -> settled (state_of (run evs s)).
Proof.
  intros Hinj (Hreg & Hwf & Hlis & Hlen).
  split; [now apply registry_rel_run|].
  split; [apply (wf_rel_run evs s Hwf)|].
  split; [now apply (listeners_rel_run evs Hinj s)|].
  apply (store_rel_run evs s Hlen).
Qed.

Lemma run_single (ev : Event) (s : State) :
  state_of (run [ev] s) = state_of (step ev s)
  /\ log_of (run [ev] s) = log_of (step ev s).
Proof using Type.
  unfold run, for_of, bind, ret, state_of, log_of.
  destruct (step ev s) as [[[[]|e] s1] t1]; cbn; now rewrite ?app_nil_r.
Qed.

Lemma settled_step (ev : Event) (s : State) :
  (forall i j, randomUUID i = randomUUID j -> i = j) ->
  settled s -> settled (state_of (step ev s)).
Proof.
  intros Hinj H. destruct (run_single ev s) as [<- _].
  now apply settled_run.
Qed.

Lemma reachable_settled (s : State) :
  (forall i j, randomUUID i = randomUUID j -> i = j) ->
  reachable s -> settled s.
Proof.
  intros Hinj. induction 1 as [|ev s _ IH]; [exact settled_initial|].
  now apply settled_step.
Qed.

Lemma for_of_returns {A : Type} (xs : list A) (body : A -> M unit) (s : State) :
  (forall x s', result_of (body x s') = Return tt) ->
  result_of (for_of xs body s) = Return tt.
Proof using Type.
  intros Hbody. revert s. induction xs as [|x xs IH]; intros s; [reflexivity|].
  cbn [for_of]. unfold bind. specialize (Hbody x s).
  unfold result_of in *.
  destruct (body x s) as [[[[]|e] s1] t1]; cbn in *; [|discriminate].
  specialize (IH s1). now destruct (for_of xs body s1) as [[r s2] t2].
Qed.

Lemma dispatch_returns (k : WebSocket) (kind : EventKind)
  (body : string -> M unit) (s : State) :
  result_of (dispatch k kind body s) = Return tt.
Proof using Type.
  unfold dispatch, gets, bind at 1.
  set (loop := for_of _ _).
  assert (Hm : result_of (loop s) = Return tt).
  { apply for_of_returns. intros l s'. unfold try_catch, emit, result_of.
    now destruct (body (snd l) s') as [[[[]|e] s1] t1]. }
  revert Hm. unfold result_of.
  now destruct (loop s) as [[r s2] t2].
Qed.

Lemma step_returns (ev : Event) (s : State) :
  result_of (step ev s) = Return tt.
Proof.
  destruct ev as [upgrade|sock data|sock|sock|]; cbn [step];
    try reflexivity; try apply dispatch_returns.
  unfold bind, ret, result_of.
  destruct (no_upgrade upgrade) eqn:Hu;
    [now rewrite (GET_refused _ _ Hu) | now rewrite (GET_eq _ _ Hu)].
Qed.

Lemma run_cons (ev : Event) (evs : list Event) (s : State) :
  state_of (run (ev :: evs) s) = state_of (run evs (state_of (step ev s)))
  /\ log_of (run (ev :: evs) s)
     = log_of (step ev s) ++ log_of (run evs (state_of (step ev s))).
Proof.
  pose proof (step_returns ev s) as Hr.
  unfold run. cbn [for_of]. unfold bind, state_of, log_of, result_of in *.
  destruct (step ev s) as [[[[]|e] s1] t1]; cbn in *; [|discriminate].
  now destruct (for_of evs step s1) as [[r s2] t2].
Qed.


(** *** What a socket receives, and what the page makes of it *)

Lemma received_app (k : WebSocket) (t1 t2 : list Effect) :
  received k (t1 ++ t2) = received k t1 ++ received k t2.
Proof using Type. apply flat_map_app. Qed.

Lemma receive_all_app (ps1 ps2 : list string) (page : Page) :
  receive_all (ps1 ++ ps2) page
  = match receive_all ps1 page with
    | Some page' => receive_all ps2 page'
    | None => None
    end.
Proof using Type.
  revert page. induction ps1 as [|p ps1 IH]; intros page; cbn; [reflexivity|].
  destruct (apply_effects _ page); [apply IH | reflexivity].
Qed.

Lemma received_silent (k : WebSocket) (t : list Effect) :
  sends t = [] -> received k t = [].
Proof using Type.
  induction t as [|e t IH]; [reflexivity|].
  destruct e; cbn; try exact IH. discriminate.
Qed.

Lemma received_fan_out_out (k : WebSocket) (payload : string)
  (cs : list Connection) :
  ~ In k (map conn_socket cs) -> received k (fan_out payload cs) = [].
Proof using Type.
  induction cs as [|c cs IH]; [reflexivity|]. cbn [map]. intros Hnot.
  unfold fan_out in *. cbn [flat_map].
  rewrite received_app, IH by (intros H; apply Hnot; now right).
  unfold attempt.
  destruct (send_throws (conn_socket c) payload); cbn; [reflexivity|].
  destruct (Nat.eqb_spec (conn_socket c) k) as [E|_]; [|reflexivity].
  exfalso. apply Hnot. now left.
Qed.

Lemma received_fan_out_in (k : WebSocket) (payload : string)
  (cs : list Connection) :
  (forall p, send_throws k p = false) ->
  NoDup (map conn_socket cs) -> In k (map conn_socket cs) ->
  received k (fan_out payload cs) = [payload].
Proof using Type.
  intros Hok. induction cs as [|c cs IH]; [intros _ []|].
  cbn [map]. intros Hnd Hin. inversion Hnd as [|? ? Hnot Hnd']; subst.
  unfold fan_out in *. cbn [flat_map]. rewrite received_app.
  unfold attempt at 1.
  destruct (Nat.eq_dec (conn_socket c) k) as [E|E].
  - rewrite E, Hok. cbn. rewrite Nat.eqb_refl.
    fold (fan_out payload cs).
    rewrite received_fan_out_out; [reflexivity|]. now rewrite <- E.
  - rewrite IH; [|exact Hnd' | destruct Hin; [contradiction | assumption]].
    destruct (send_throws (conn_socket c) payload); cbn; [reflexivity|].
    destruct (Nat.eqb_spec (conn_socket c) k); [contradiction | reflexivity].
Qed.

Lemma received_announce_in (k : WebSocket) (data : Json)
  (cs : JsMap.t Connection) :
  (forall p, send_throws k p = false) ->
  NoDup (sockets_of cs) -> In k (sockets_of cs) ->
  received k (announce data cs) = [JSON_stringify data].
Proof using Type.
  intros Hok Hnd Hin. unfold announce.
  change (received k (Stringify data :: ?t)) with (received k t).
  now apply received_fan_out_in.
Qed.

Lemma on_server_event_decodes (str : string) :
  (forall h, JSON_parse str = Some (history_event h) ->
     snd (on_server_event (Text str))
     = [SetMessages (Some (JArray (map json_of_message h)))])
  /\ (forall m, JSON_parse str = Some (message_event m) ->
        snd (on_server_event (Text str))
        = [AppendMessage (Some (json_of_message m))])
  /\ (forall n, JSON_parse str = Some (presence_event n) ->
        snd (on_server_event (Text str))
        = [SetOnlineCount (Some (JNumber (inject_Z (Z.of_nat n))))]).
Proof using Type.
  unfold on_server_event, page_parse.
  repeat split; intros x H; now rewrite H.
Qed.

Lemma receive_presence (page : Page) (n : nat) :
  JSON_parse (JSON_stringify (presence_event n)) = Some (presence_event n) ->
  exists page',
    receive_all [JSON_stringify (presence_event n)] page = Some page'
    /\ messages page' = messages page
    /\ onlineCount page' = Some (JNumber (inject_Z (Z.of_nat n))).
Proof using Type.
  intros Hparse. cbn [receive_all].
  destruct (on_server_event_decodes (JSON_stringify (presence_event n)))
    as (_ & _ & H).
  rewrite (H n Hparse). cbn. eexists. repeat split.
Qed.

Lemma receive_message (page : Page) (m : ChatMessage)
  (items : list (option Json)) :
  JSON_parse (JSON_stringify (message_event m)) = Some (message_event m) ->
  elements (messages page) = Some items ->
  exists page',
    receive_all [JSON_stringify (message_event m)] page = Some page'
    /\ elements (messages page') = Some (items ++ [Some (json_of_message m)])
    /\ onlineCount page' = onlineCount page.
Proof using Type.
  intros Hparse Hitems. cbn [receive_all].
  destruct (on_server_event_decodes (JSON_stringify (message_event m)))
    as (_ & H & _).
  rewrite (H m Hparse). cbn [apply_effects apply_effect].
  rewrite Hitems. eexists. repeat split.
Qed.

Lemma receive_history (page : Page) (h : list ChatMessage) :
  JSON_parse (JSON_stringify (history_event h)) = Some (history_event h) ->
  exists page',
    receive_all [JSON_stringify (history_event h)] page = Some page'
    /\ elements (messages page')
       = Some (map (fun m => Some (json_of_message m)) h)
    /\ onlineCount page' = onlineCount page.
Proof using Type.
  intros Hparse. cbn [receive_all].
  destruct (on_server_event_decodes (JSON_stringify (history_event h)))
    as (H & _).
  rewrite (H h Hparse).
  cbn [apply_effects apply_effect val_of]. eexists.
  split; [reflexivity|]. split; [|reflexivity].
  cbn [messages elements]. now rewrite map_map.
Qed.

Lemma dispatch_none (k : WebSocket) (kind : EventKind)
  (body : string -> M unit) (s : State) :
  filter (listens k kind) (listeners s) = [] ->
  dispatch k kind body s = (Return tt, s, []).
Proof using Type.
  intros H. unfold dispatch, gets, bind. now rewrite H.
Qed.

Lemma listeners_beyond (s : State) (k : WebSocket) (kind : EventKind) :
  registry_ok s -> pairs s <= k ->
  filter (listens k kind) (listeners s) = [].
Proof using Type.
  intros (_ & _ & _ & Hlis & _) Hk. apply filter_none.
  intros [[k' kd] id] Hin. apply Hlis in Hin. apply listens_other. lia.
Qed.

Lemma listener_in (s : State) (k : WebSocket) (id : string) (kind : EventKind) :
  listener_of s k id -> In (k, kind, id) (listeners s).
Proof using Type.
  intros H. specialize (H kind).
  assert (Hin : In (k, kind, id) (filter (listens k kind) (listeners s)))
    by (rewrite H; now left).
  now apply filter_In in Hin.
Qed.


(** *** The page of a connected client follows the route *)

Lemma in_sync_same (k : WebSocket) (s s' : State) (page : Page)
  (shown : list ChatMessage) :
  connections s' = connections s -> store s' = store s ->
  in_sync k s page shown -> in_sync k s' page shown.
Proof using Type. unfold in_sync. now intros -> ->. Qed.

Lemma sync_quiet (k : WebSocket) (s s' : State) (t : list Effect) (page : Page)
  (shown : list ChatMessage) :
  connections s' = connections s -> store s' = store s ->
  sends t = [] -> appended t = [] ->
  in_sync k s page shown ->
  exists page',
    receive_all (received k t) page = Some page'
    /\ in_sync k s' page' (shown ++ appended t).
Proof using Type.
  intros Hc Hs Hsends Happ H. exists page.
  rewrite (received_silent k t Hsends), Happ, app_nil_r.
  split; [reflexivity|]. now apply (in_sync_same k s).
Qed.

Lemma sync_presence (k : WebSocket) (s s' : State) (t : list Effect)
  (page : Page) (shown : list ChatMessage) :
  (forall p, send_throws k p = false) ->
  store s' = store s ->
  NoDup (sockets_of (connections s')) ->
  In k (sockets_of (connections s')) ->
  received k t
  = received k (announce (presence_event (JsMap.size (connections s')))
                  (connections s')) ->
  appended t = [] ->
  JSON_parse (JSON_stringify (presence_event (JsMap.size (connections s'))))
  = Some (presence_event (JsMap.size (connections s'))) ->
  in_sync k s page shown ->
  exists page',
    receive_all (received k t) page = Some page'
    /\ in_sync k s' page' (shown ++ appended t).
Proof using Type.
  intros Hok Hs Hnd Hin Hrec Happ Hparse (_ & Hel & _ & Hst).
  rewrite Hrec, (received_announce_in k _ _ Hok Hnd Hin), Happ, app_nil_r.
  destruct (receive_presence page _ Hparse) as (page' & Hr & Hm & Hcount).
  exists page'. split; [exact Hr|].
  repeat split; [exact Hin | now rewrite Hm | exact Hcount | now rewrite Hs].
Qed.

Lemma received_history_attempt_other (k server : WebSocket)
  (h : list ChatMessage) :
  k <> server -> received k (history_attempt server h) = [].
Proof using Type.
  intros Hne. unfold history_attempt. cbv zeta.
  destruct (send_throws server (JSON_stringify (history_event h))); cbn;
    [reflexivity|].
  destruct (Nat.eqb_spec server k); [congruence | reflexivity].
Qed.

Lemma received_accepted_log_other (k : WebSocket) (s : State) :
  k <> pairs s ->
  received k (accepted_log s)
  = received k (announce
                  (presence_event (JsMap.size (connections (accepted_state s))))
                  (connections (accepted_state s))).
Proof using Type.
  intros Hne. unfold accepted_log. cbv zeta.
  rewrite !received_app, received_history_attempt_other by exact Hne.
  cbn [received flat_map app]. now rewrite app_nil_r.
Qed.

Lemma stringified_accepted_log (s : State) :
  stringified (accepted_log s)
  = [history_event (store s);
     presence_event (JsMap.size (connections (accepted_state s)))].
Proof using Type.
  unfold accepted_log, history_attempt. cbv zeta.
  rewrite !stringified_app, stringified_announce.
  now destruct (send_throws _ _).
Qed.

Lemma step_request (upgrade : option string) (s : State) :
  state_of (step (Request upgrade) s) = state_of (GET upgrade s)
  /\ log_of (step (Request upgrade) s) = log_of (GET upgrade s).
Proof.
  cbn [step]. unfold bind, ret, state_of, log_of.
  destruct (no_upgrade upgrade) eqn:Hu;
    [rewrite (GET_refused _ _ Hu) | rewrite (GET_eq _ _ Hu)];
    cbn [fst snd]; now rewrite app_nil_r.
Qed.

Lemma registered_stays (s : State) (k : WebSocket) :
  (forall i j, randomUUID i = randomUUID j -> i = j) ->
  wf s -> In k (sockets_of (connections s)) ->
  In k (sockets_of (connections (accepted_state s))).
Proof.
  intros Hinj Hwf Hin.
  assert (Hfresh : ~ In (randomUUID (drawn s)) (JsMap.keys (connections s))).
  { intros H. apply (fresh_draw s Hinj Hwf). apply in_or_app. now left. }
  cbn [accepted_state connections add_listener with_connections].
  cbn. rewrite (JsMap_set_fresh _ _ _ Hfresh).
  unfold sockets_of, JsMap.values in *. rewrite !map_app.
  apply in_or_app. now left.
Qed.

Lemma sync_connect (k : WebSocket) (upgrade : option string) (s : State)
  (page : Page) (shown : list ChatMessage) :
  (forall i j, randomUUID i = randomUUID j -> i = j) ->
  (forall p, send_throws k p = false) ->
  settled s -> in_sync k s page shown ->
  (forall d, In d (stringified (log_of (GET upgrade s))) ->
             JSON_parse (JSON_stringify d) = Some d) ->
  exists page',
    receive_all (received k (log_of (GET upgrade s))) page = Some page'
    /\ in_sync k (state_of (GET upgrade s)) page'
         (shown ++ appended (log_of (GET upgrade s))).
Proof.
  intros Hinj Hok (Hreg & Hwf & _ & _) Hsync Hparse.
  destruct (no_upgrade upgrade) eqn:Hu.
  - rewrite (GET_refused _ _ Hu) in *.
    now apply (sync_quiet k s).
  - rewrite (GET_eq _ _ Hu) in *.
    rewrite state_of_triple, log_of_triple in *.
    assert (Hk : k <> pairs s).
    { destruct Hsync as (Hin & _). destruct Hreg as (_ & _ & Hconn & _).
      rewrite sockets_of_map in Hin. apply in_map_iff in Hin.
      destruct Hin as ([key c] & <- & Hc). apply Hconn in Hc. cbn. lia. }
    apply (sync_presence k s); try assumption.
    + reflexivity.
    + apply (registry_ok_accepted_state s Hreg).
    + apply registered_stays; try assumption. apply Hsync.
    + now apply received_accepted_log_other.
    + apply appended_accepted_log.
    + apply Hparse. rewrite stringified_accepted_log. right. now left.
Qed.

Lemma sync_message (k : WebSocket) (d : MessageData) (s : State)
  (page : Page) (shown : list ChatMessage) :
  (forall p, send_throws k p = false) ->
  settled s -> in_sync k s page shown ->
  (forall j, In j (stringified (log_of (on_message d s))) ->
             JSON_parse (JSON_stringify j) = Some j) ->
  exists page',
    receive_all (received k (log_of (on_message d s))) page = Some page'
    /\ in_sync k (state_of (on_message d s)) page'
         (shown ++ appended (log_of (on_message d s))).
Proof.
  intros Hok (Hreg & _ & _ & _) Hsync Hparse.
  destruct (on_message_keeps_registry d s) as (Hc & _ & _).
  revert Hc Hparse. rewrite on_message_eq.
  pose proof (sends_message_outcome (verdict d) s) as Hsends.
  pose proof (appended_message_outcome (verdict d) s) as Happ.
  destruct (verdict d) as [[|]|[|]|text alias color]; intros Hc Hparse;
    try (apply (sync_quiet k s); solve [assumption | reflexivity]).
  set (m := built_message text alias color s) in *.
  destruct Hsync as (Hin & Hel & Hcount & Hst).
  destruct Hreg as (_ & Hnd & _).
  assert (Hrec : received k (log_of (message_outcome (Accepted text alias color) s))
                 = [JSON_stringify (message_event m)]).
  { rewrite log_of_accepted, !received_app.
    rewrite (received_silent k (pruned_log _)) by apply sends_pruned_log.
    now rewrite (received_announce_in k _ _ Hok Hnd Hin). }
  assert (Hstr : In (message_event m)
                   (stringified
                      (log_of (message_outcome (Accepted text alias color) s)))).
  { rewrite log_of_accepted, !stringified_app, stringified_announce.
    apply in_or_app. right. apply in_or_app. right. now left. }
  destruct (receive_message page m _ (Hparse _ Hstr) Hel)
    as (page' & Hr & Hel' & Hcount').
  exists page'. rewrite Hrec, Happ. split; [exact Hr|].
  repeat split.
  - now rewrite Hc.
  - now rewrite Hel', map_app.
  - now rewrite Hcount', Hc.
  - unfold state_of, message_outcome. cbn [fst snd]. fold m.
    now rewrite store_stored_state, append_and_trim_lastn, Hst, lastn_snoc.
Qed.

Lemma sync_cleanup (k k' : WebSocket) (kind : EventKind) (id : string)
  (s : State) (page : Page) (shown : list ChatMessage) :
  (forall p, send_throws k p = false) ->
  settled s -> in_sync k s page shown ->
  k' <> k -> listener_of s k' id ->
  (forall j, In j (stringified (log_of (cleanup id s))) ->
             JSON_parse (JSON_stringify j) = Some j) ->
  exists page',
    receive_all (received k (log_of (cleanup id s))) page = Some page'
    /\ in_sync k (state_of (cleanup id s)) page'
         (shown ++ appended (log_of (cleanup id s))).
Proof.
  intros Hok (Hreg & _ & Hlis & _) Hsync Hne Hid Hparse.
  rewrite cleanup_eq in *. rewrite state_of_triple, log_of_triple in *.
  pose proof (registry_ok_cleanup id s Hreg) as (_ & Hnd' & _).
  destruct Hreg as (Hkeys & _ & Hconn & _).
  apply (sync_presence k s); try assumption.
  - reflexivity.
  - destruct Hsync as (Hin & _).
    rewrite sockets_of_map in *. apply in_map_iff in Hin.
    destruct Hin as ([key c] & E & Hc). cbn in E.
    apply in_map_iff. exists (key, c). split; [exact E|].
    cbn [connections with_connections].
    rewrite (JsMap_delete_filter id _ Hkeys). apply filter_In.
    split; [exact Hc|]. cbn.
    destruct (String.eqb_spec id key) as [->|_]; [|reflexivity].
    exfalso. apply Hne.
    destruct (Hconn key c Hc) as (_ & _ & Hl). rewrite E in Hl.
    destruct Hlis as [_ Hapart].
    apply (Hapart k' k OnClose OnClose key); now apply listener_in.
  - reflexivity.
  - change (appended (MapDelete id :: ?t)) with (appended t).
    apply appended_announce.
  - apply Hparse.
    change (stringified (MapDelete id :: ?t)) with (stringified t).
    rewrite stringified_announce. now left.
Qed.

Lemma sync_dispatch (k k' : WebSocket) (kind : EventKind)
  (body : string -> M unit) (s : State) (page : Page)
  (shown : list ChatMessage) :
  settled s -> in_sync k s page shown ->
  (forall j, In j (stringified (log_of (dispatch k' kind body s))) ->
             JSON_parse (JSON_stringify j) = Some j) ->
  (forall id, listener_of s k' id ->
     (forall j, In j (stringified (log_of (body id s))) ->
                JSON_parse (JSON_stringify j) = Some j) ->
     exists page',
       receive_all (received k (log_of (body id s))) page = Some page'
       /\ in_sync k (state_of (body id s)) page'
            (shown ++ appended (log_of (body id s)))) ->
  exists page',
    receive_all (received k (log_of (dispatch k' kind body s))) page
    = Some page'
    /\ in_sync k (state_of (dispatch k' kind body s)) page'
         (shown ++ appended (log_of (dispatch k' kind body s))).
Proof using Type.
  intros (Hreg & _) Hsync Hparse Hbody.
  destruct (Nat.lt_ge_cases k' (pairs s)) as [Hlt|Hge].
  - destruct Hreg as (_ & _ & _ & _ & Hall).
    destruct (Hall k' Hlt) as [id Hid].
    rewrite (dispatch_single k' kind id body s (Hid kind)) in *.
    rewrite state_of_triple, log_of_triple in *.
    set (u := match result_of (body id s) with
              | Throw e => [Uncaught e]
              | Return _ => []
              end) in *.
    assert (Hu : received k u = [] /\ appended u = [] /\ stringified u = []).
    { subst u. now destruct (result_of (body id s)). }
    destruct Hu as (Hu1 & Hu2 & Hu3).
    rewrite received_app, appended_app, Hu1, Hu2, !app_nil_r.
    apply (Hbody id Hid). intros j Hj. apply Hparse.
    rewrite stringified_app, Hu3, app_nil_r. exact Hj.
  - rewrite (dispatch_none k' kind body s (listeners_beyond s k' kind Hreg Hge)).
    now apply (sync_quiet k s).
Qed.

Lemma sync_step (k : WebSocket) (ev : Event) (s : State) (page : Page)
  (shown : list ChatMessage) :
  (forall i j, randomUUID i = randomUUID j -> i = j) ->
  (forall p, send_throws k p = false) ->
  settled s -> in_sync k s page shown ->
  ev <> SocketClose k -> ev <> SocketError k ->
  (forall j, In j (stringified (log_of (step ev s))) ->
             JSON_parse (JSON_stringify j) = Some j) ->
  exists page',
    receive_all (received k (log_of (step ev s))) page = Some page'
    /\ in_sync k (state_of (step ev s)) page'
         (shown ++ appended (log_of (step ev s))).
Proof.
  intros Hinj Hok Hset Hsync Hclose Herror Hparse.
  destruct ev as [upgrade|sock data|sock|sock|].
  - destruct (step_request upgrade s) as [Es El].
    rewrite Es, El in *. now apply sync_connect.
  - cbn [step] in *. apply sync_dispatch; try assumption.
    intros _ _ Hp. now apply sync_message.
  - cbn [step] in *. apply sync_dispatch; try assumption.
    intros id Hid Hp. apply (sync_cleanup k sock OnClose); try assumption.
    congruence.
  - cbn [step] in *. apply sync_dispatch; try assumption.
    intros id Hid Hp. apply (sync_cleanup k sock OnError); try assumption.
    congruence.
  - cbn. exists page. rewrite app_nil_r. split; [reflexivity|].
    now apply (in_sync_same k s).
Qed.

Lemma sync_run (k : WebSocket) (evs : list Event) (s : State) (page : Page)
  (shown : list ChatMessage) :
  (forall i j, randomUUID i = randomUUID j -> i = j) ->
  (forall p, send_throws k p = false) ->
  settled s -> in_sync k s page shown ->
  Forall (fun ev => ev <> SocketClose k /\ ev <> SocketError k) evs ->
  (forall j, In j (stringified (log_of (run evs s))) ->
             JSON_parse (JSON_stringify j) = Some j) ->
  exists page',
    receive_all (received k (log_of (run evs s))) page = Some page'
    /\ in_sync k (state_of (run evs s)) page'
         (shown ++ appended (log_of (run evs s))).
Proof.
  intros Hinj Hok. revert s page shown.
  induction evs as [|ev evs IH]; intros s page shown Hset Hsync Hevs Hparse.
  - exists page. cbn. rewrite app_nil_r. now split.
  - destruct (run_cons ev evs s) as [Es El]. rewrite Es, El in *.
    inversion Hevs as [|? ? [Hc He] Hevs']; subst.
    destruct (sync_step k ev s page shown Hinj Hok Hset Hsync Hc He)
      as (page1 & Hr1 & Hsync1).
    { intros j Hj. apply Hparse. rewrite stringified_app.
      apply in_or_app. now left. }
    destruct (IH (state_of (step ev s)) page1
                (shown ++ appended (log_of (step ev s))))
      as (page2 & Hr2 & Hsync2); try assumption.
    { now apply settled_step. }
    { intros j Hj. apply Hparse. rewrite stringified_app.
      apply in_or_app. now right. }
    exists page2. rewrite received_app, receive_all_app, Hr1.
    split; [exact Hr2|]. now rewrite appended_app, app_assoc.
Qed.


Lemma new_socket_registered (s : State) :
  (forall i j, randomUUID i = randomUUID j -> i = j) ->
  wf s -> In (pairs s) (sockets_of (connections (accepted_state s))).
Proof.
  intros Hinj Hwf.
  assert (Hfresh : ~ In (randomUUID (drawn s)) (JsMap.keys (connections s))).
  { intros H. apply (fresh_draw s Hinj Hwf). apply in_or_app. now left. }
  cbn [accepted_state connections add_listener with_connections].
  cbn. rewrite (JsMap_set_fresh _ _ _ Hfresh).
  unfold sockets_of, JsMap.values. rewrite !map_app.
  apply in_or_app. right. now left.
Qed.

Lemma received_accepted_log_own (s : State) :
  (forall i j, randomUUID i = randomUUID j -> i = j) ->
  (forall p, send_throws (pairs s) p = false) ->
  settled s ->
  received (pairs s) (accepted_log s)
  = [JSON_stringify (history_event (store s));
     JSON_stringify
       (presence_event (JsMap.size (connections (accepted_state s))))].
Proof.
  intros Hinj Hok (Hreg & Hwf & _).
  pose proof (registry_ok_accepted_state s Hreg) as (_ & Hnd & _).
  pose proof (received_announce_in (pairs s)
                (presence_event (JsMap.size (connections (accepted_state s))))
                (connections (accepted_state s)) Hok Hnd
                (new_socket_registered s Hinj Hwf)) as Hann.
  unfold accepted_log, history_attempt. cbv zeta.
  rewrite !received_app.
  change (JsMap.set (randomUUID (drawn s))
            {| conn_id := randomUUID (drawn s); conn_socket := pairs s |}
            (connections s))
    with (connections (accepted_state s)).
  rewrite Hann, Hok. cbn. now rewrite Nat.eqb_refl.
Qed.

(** X17. End to end, the page of a client follows the route. A client
    whose request is accepted in a reachable state gets socket [pairs s];
    if no [send] on that socket fails, that socket is not closed, and
    [JSON.parse] reads back every event the route serialises, then
    whatever the page showed before, its message listener takes every
    payload sent to the socket without its updater failing, and
    afterwards the client is still registered, the page shows the replayed
    history followed by every message accepted since, in order, its
    count is the size of the registry, and the store of the route is the
    last 200 of the messages shown. *)
Theorem page_follows_the_route (upgrade : option string) (s : State)
  (evs : list Event) (page : Page) :
  (forall i j, randomUUID i = randomUUID j -> i = j) ->
  reachable s ->
  no_upgrade upgrade = false ->
  (forall payload, send_throws (pairs s) payload = false) ->
  Forall (fun ev => ev <> SocketClose (pairs s) /\ ev <> SocketError (pairs s))
    evs ->
  (forall d, In d (stringified (log_of (run (Request upgrade :: evs) s))) ->
             JSON_parse (JSON_stringify d) = Some d) ->
  exists page',
    receive_all
      (received (pairs s) (log_of (run (Request upgrade :: evs) s))) page
    = Some page'
    /\ In (pairs s)
         (sockets_of (connections (state_of (run (Request upgrade :: evs) s))))
    /\ elements (messages page')
       = Some (map (fun m => Some (json_of_message m))
                 (store s
                  ++ appended (log_of (run (Request upgrade :: evs) s))))
    /\ onlineCount page'
       = Some (JNumber (inject_Z (Z.of_nat
           (JsMap.size
              (connections (state_of (run (Request upgrade :: evs) s)))))))
    /\ store (state_of (run (Request upgrade :: evs) s))
       = lastn 200
           (store s ++ appended (log_of (run (Request upgrade :: evs) s))).
Proof.
  intros Hinj Hreach Hu Hok Hevs Hparse.
  pose proof (reachable_settled s Hinj Hreach) as Hset.
  destruct (run_cons (Request upgrade) evs s) as [Es El].
  destruct (step_request upgrade s) as [Gs Gl].
  rewrite Es, El, Gs, Gl in *. clear Es El Gs Gl.
  rewrite (GET_eq _ _ Hu) in *. rewrite state_of_triple, log_of_triple in *.
  assert (Hp1 : JSON_parse (JSON_stringify (history_event (store s)))
                = Some (history_event (store s))).
  { apply Hparse. rewrite stringified_app, stringified_accepted_log.
    now left. }
  assert (Hp2 : JSON_parse
                  (JSON_stringify
                     (presence_event
                        (JsMap.size (connections (accepted_state s)))))
                = Some (presence_event
                          (JsMap.size (connections (accepted_state s))))).
  { apply Hparse. rewrite stringified_app, stringified_accepted_log.
    right. now left. }
  destruct (receive_history page (store s) Hp1) as (page1 & Hr1 & Hel1 & _).
  destruct (receive_presence page1 _ Hp2) as (page2 & Hr2 & Hm2 & Hc2).
  assert (Hsync : in_sync (pairs s) (accepted_state s) page2 (store s)).
  { destruct Hset as (_ & Hwf & _ & Hlen).
    repeat split.
    - now apply new_socket_registered.
    - now rewrite Hm2.
    - exact Hc2.
    - unfold lastn. change (store (accepted_state s)) with (store s).
      now replace (length (store s) - 200) with 0 by lia. }
  destruct (sync_run (pairs s) evs (accepted_state s) page2 (store s)
              Hinj Hok) as (page3 & Hr3 & Hin & Hel & Hcount & Hst).
  - pose proof (settled_step (Request upgrade) s Hinj Hset) as H.
    destruct (step_request upgrade s) as [Gs _].
    now rewrite Gs, (GET_eq _ _ Hu), state_of_triple in H.
  - exact Hsync.
  - exact Hevs.
  - intros j Hj. apply Hparse. rewrite stringified_app.
    apply in_or_app. now right.
  - exists page3.
    rewrite received_app, receive_all_app,
      (received_accepted_log_own s Hinj Hok Hset).
    change [JSON_stringify (history_event (store s)); ?b]
      with ([JSON_stringify (history_event (store s))] ++ [b]).
    rewrite receive_all_app, Hr1, Hr2, Hr3.
    rewrite appended_app, appended_accepted_log in *.
    now repeat split.
Qed.

End Route.

(** ** The claims on concrete runs

    The runtime services are those of [Demo]: socket 1 is broken, the
    identifiers drawn are [u], [ui], [uii], ... *)

Abbreviation demo_broadcast := (broadcast Demo.stringify Demo.send_throws).
Abbreviation demo_GET := (GET Demo.stringify Demo.uuid Demo.send_throws).
Abbreviation demo_cleanup := (cleanup Demo.stringify Demo.send_throws).
Abbreviation demo_on_message :=
  (on_message Demo.parse Demo.stringify Demo.uuid Demo.iso Demo.send_throws).
Abbreviation demo_step :=
  (step Demo.parse Demo.stringify Demo.uuid Demo.iso Demo.send_throws).
Abbreviation demo_run :=
  (run Demo.parse Demo.stringify Demo.uuid Demo.iso Demo.send_throws).

Lemma Demo_tally_injective (i j : nat) : Demo.tally i = Demo.tally j -> i = j.
Proof.
  revert j. induction i as [|i IH]; intros [|j]; cbn; intros H;
    try discriminate; [reflexivity|].
  injection H as H. f_equal. now apply IH.
Qed.

Lemma Demo_uuid_injective (i j : nat) : Demo.uuid i = Demo.uuid j -> i = j.
Proof.
  unfold Demo.uuid. intros H. injection H as H.
  now apply Demo_tally_injective.
Qed.

(** C2 on the registry of two connections, the first one excluded: the
    only attempt goes to socket 1, it throws, and [broadcast] returns. *)
Lemma broadcast_skips_the_excluded_connection :
  sends (log_of (demo_broadcast (presence_event 2)
                   (Some {| exclude := Some "u" |})
                   (state_of (demo_run Demo.two_connects initial))))
  = [(1, Demo.stringify (presence_event 2))]
  /\ result_of (demo_broadcast (presence_event 2)
                  (Some {| exclude := Some "u" |})
                  (state_of (demo_run Demo.two_connects initial)))
     = Return tt.
Proof.
  destruct (broadcast_reaches_all_but_excluded
              Demo.stringify Demo.send_throws (presence_event 2)
              (Some {| exclude := Some "u" |})
              (state_of (demo_run Demo.two_connects initial)))
    as (Hr & _ & _ & Hs & _).
  - vm_compute. intros c [<-|[<-|[]]]; discriminate.
  - split; [exact Hs | exact Hr].
Defined.

(** C3 on the first connect: a history event, then one presence event. *)
Lemma first_connect_announces_one :
  stringified (log_of (demo_GET Demo.upgrade initial))
  = [history_event []; presence_event 1].
Proof.
  rewrite (proj1 (presence_follows_membership_changes
                    Demo.parse Demo.stringify Demo.uuid Demo.iso
                    Demo.send_throws initial) Demo.upgrade eq_refl).
  reflexivity.
Defined.

(** C3 as stated fails: in the first connect, what follows the
    registration is the serialisation of the history event, not of a
    presence event. *)
Lemma presence_is_not_right_after_register :
  ~ announced_right_after_register (log_of (demo_GET Demo.upgrade initial)).
Proof.
  intros (d & H & Hp). vm_compute in H. injection H as <-. discriminate Hp.
Qed.

(** C4 on the first connect. *)
Lemma first_connect_registers_first :
  registered_before_history_sent (log_of (demo_GET Demo.upgrade initial)).
Proof.
  exact (proj2 (proj2 (proj2 (proj2
           (connect_registers_before_it_replays
              Demo.parse Demo.stringify Demo.uuid Demo.iso Demo.send_throws
              Demo.upgrade initial Demo_uuid_injective
              (reachable_initial _ _ _ _ _) eq_refl))))).
Defined.

(** C4 as stated fails: the history is not sent before the connection is
    registered. *)
Lemma history_is_not_sent_before_register :
  ~ history_sent_before_register (log_of (demo_GET Demo.upgrade initial)).
Proof.
  intros (i & j & Hi & Hj & Hlt). vm_compute in Hi, Hj.
  injection Hi as <-. injection Hj as <-. lia.
Qed.

(** C5 on the second disconnect of the second client: its id is gone
    from the registry, and the first client is sent the count again. *)
Lemma second_cleanup_announces_again :
  sends (log_of (demo_cleanup "ui"
                   (state_of (demo_run Demo.second_leaves initial))))
  = [(0, Demo.stringify (presence_event 1))].
Proof.
  destruct (cleanup_of_absent_id_still_announces
              Demo.stringify Demo.send_throws "ui"
              (state_of (demo_run Demo.second_leaves initial)))
    as (_ & _ & _ & _ & Hs).
  - reflexivity.
  - exact Hs.
Defined.

(** C5 as stated fails: after [close] removed the second client, the
    [error] event of the same socket finds its id absent and is not
    silent, a second presence event goes out to the first client. *)
Lemma double_disconnect_is_not_silent :
  JsMap.has "ui"
    (connections (state_of (demo_run Demo.second_leaves initial))) = false
  /\ sends (log_of (demo_step (SocketError 1)
                      (state_of (demo_run Demo.second_leaves initial))))
     = [(0, Demo.stringify (presence_event 1))]
  /\ ~ silent (log_of (demo_step (SocketError 1)
                         (state_of (demo_run Demo.second_leaves initial)))).
Proof.
  repeat split. intros H. vm_compute in H. discriminate H.
Qed.

(** C6 on the text [null]. *)
Lemma null_text_throws :
  demo_on_message (Text "null") initial = (Throw TypeError, initial, []).
Proof.
  exact (null_payload_makes_the_listener_throw
           Demo.parse Demo.stringify Demo.uuid Demo.iso Demo.send_throws
           "null" initial eq_refl).
Defined.

(** The runtime reports what the listener threw. *)
Lemma null_text_is_reported_uncaught :
  log_of (demo_step (SocketMessage 0 (Text "null"))
            (state_of (demo_run Demo.two_connects initial)))
  = [Uncaught TypeError].
Proof. reflexivity. Qed.

(** C7 on the greeting of the first client: both sockets are tried, the
    sender's too. *)
Lemma greeting_goes_to_both :
  sends (log_of (demo_on_message (Text Demo.hello_text)
                   (state_of (demo_run Demo.two_connects initial))))
  = [(0, Demo.stringify (message_event Demo.greeting));
     (1, Demo.stringify (message_event Demo.greeting))].
Proof.
  destruct (chat_message_goes_to_every_connection
              Demo.parse Demo.stringify Demo.uuid Demo.iso Demo.send_throws
              (Text Demo.hello_text)
              (state_of (demo_run Demo.two_connects initial))
              Demo.greeting)
    as (_ & _ & Hs & _).
  - vm_compute. tauto.
  - exact Hs.
Defined.



(** ** The further properties on concrete runs *)

Abbreviation demo_read_on_message :=
  (on_message Demo.read Demo.stringify Demo.uuid Demo.iso Demo.send_throws).
Abbreviation demo_read_run :=
  (run Demo.read Demo.stringify Demo.uuid Demo.iso Demo.send_throws).

(** The page of the persona of seed 14, its socket open, with a text
    typed in. *)
Abbreviation demo_page :=
  {| messages := VList [];
     onlineCount := Some (JNumber 1);
     pending := false;
     socketReady := true;
     input := "  hey there ";
     socketRef := Some {| readyState := OPEN; send_fails := fun _ => false |};
     persona := build_persona 14 |}.

(** X4 on a text that is the number 5. *)
Lemma numeric_text_throws :
  demo_read_on_message (Text (Demo.stringify Demo.counted)) initial
  = (Throw TypeError, initial, []).
Proof.
  apply (non_string_text_makes_the_listener_throw
           Demo.read Demo.stringify Demo.uuid Demo.iso Demo.send_throws
           (Demo.stringify Demo.counted)
           [("type", JString "message"); ("text", JNumber 5)]
           (JNumber 5) initial);
    try reflexivity.
  intros t H. discriminate H.
Defined.

(** X5 on an alias that is [true]: one identifier is drawn, nothing is
    stored or sent. *)
Lemma boolean_alias_throws :
  demo_read_on_message (Text (Demo.stringify Demo.flagged)) initial
  = (Throw TypeError, next_draw initial, [RandomUUID "u"]).
Proof.
  apply (proj1 (unsliceable_alias_or_color_makes_the_listener_throw
                  Demo.read Demo.stringify Demo.uuid Demo.iso
                  Demo.send_throws
                  (Demo.stringify Demo.flagged)
                  [("type", JString "message"); ("text", JString "hi");
                   ("alias", JBool true)]
                  "hi" initial eq_refl eq_refl eq_refl
                  ltac:(vm_compute; discriminate)
                  (or_introl I))).
Defined.

(** X6 on an alias that is [null]. *)
Lemma null_alias_is_anonymous :
  exists m,
    appended (log_of (demo_read_on_message
                        (Text (Demo.stringify Demo.nameless)) initial))
    = [m]
    /\ msg_alias m = JString "Anonymous".
Proof.
  apply (proj1 (null_and_array_alias
                  Demo.read Demo.stringify Demo.uuid Demo.iso
                  Demo.send_throws
                  (Demo.stringify Demo.nameless)
                  [("type", JString "message"); ("text", JString "hi");
                   ("alias", JNull)]
                  "hi" initial eq_refl eq_refl eq_refl
                  ltac:(vm_compute; discriminate) I)
               eq_refl).
Defined.

(** X9 on the second of two clients. *)
Lemma second_client_is_removed :
  connections (state_of (demo_cleanup "ui"
                           (state_of (demo_run Demo.two_connects initial))))
  = [("u", {| conn_id := "u"; conn_socket := 0 |})]
  /\ sends (log_of (demo_cleanup "ui"
                      (state_of (demo_run Demo.two_connects initial))))
     = [(0, Demo.stringify (presence_event 1))].
Proof.
  destruct (cleanup_removes_exactly_one
              Demo.parse Demo.stringify Demo.uuid Demo.iso Demo.send_throws
              "ui" {| conn_id := "ui"; conn_socket := 1 |}
              (state_of (demo_run Demo.two_connects initial)))
    as (Hc & _ & _ & Hs & _).
  - apply reachable_run. constructor.
  - right. left. reflexivity.
  - split; [exact Hc | exact Hs].
Defined.


(** X12 on two greetings. *)
Lemma two_greetings_differ :
  NoDup
    (map msg_id
       (store
          (state_of
             (demo_run (Demo.two_connects
                        ++ [SocketMessage 0 (Text Demo.hello_text);
                            SocketMessage 1 (Text Demo.hello_text)])
                initial)))).
Proof.
  exact (proj1 (stored_ids_are_unique
                  Demo.parse Demo.stringify Demo.uuid Demo.iso
                  Demo.send_throws
                  (Demo.two_connects
                   ++ [SocketMessage 0 (Text Demo.hello_text);
                       SocketMessage 1 (Text Demo.hello_text)])
                  Demo_uuid_injective)).
Defined.

(** X15 on the page of the persona of seed 14. *)
Lemma typed_text_reaches_the_store :
  exists m c,
    appended (log_of (demo_read_on_message
                        (Text (Demo.stringify (submit_payload demo_page)))
                        initial))
    = [m]
    /\ msg_text m = "hey there"
    /\ msg_alias m = JString "Calm Fox"
    /\ buildColor 14 = Some c
    /\ msg_color m = JString c.
Proof.
  apply (submitted_message_is_accepted
           Demo.read Demo.stringify Demo.uuid Demo.iso Demo.send_throws
           demo_page 14 initial eq_refl).
  - vm_compute. discriminate.
  - reflexivity.
Defined.

(** X17 on the first client while a second one connects, greets and
    leaves: the page of the first shows the greeting and a count of 1. *)
Lemma first_client_sees_the_visit :
  exists page',
    receive_all Demo.read
      (received 0
         (log_of (demo_read_run (Request Demo.upgrade :: Demo.visit) initial)))
      (first_page 14)
    = Some page'
    /\ elements (messages page') = Some [Some (json_of_message Demo.greeting)]
    /\ onlineCount page' = Some (JNumber 1).
Proof.
  destruct (page_follows_the_route
              Demo.read Demo.stringify Demo.uuid Demo.iso Demo.send_throws
              Demo.upgrade initial Demo.visit (first_page 14))
    as (page' & Hr & _ & Hel & Hc & _).
  - exact Demo_uuid_injective.
  - constructor.
  - reflexivity.
  - reflexivity.
  - repeat constructor; discriminate.
  - intros d Hd. vm_compute in Hd.
    repeat (destruct Hd as [<-|Hd]; [reflexivity|]). destruct Hd.
  - exists page'. split; [exact Hr|]. split; [exact Hel | exact Hc].
Defined.

(** ** The runtime functions and the boundaries on small inputs *)

Example trim_strips_both_ends : Js.trim "  hi " = "hi".
Proof. reflexivity. Qed.

Example trim_of_blanks_is_empty : Js.trim "   " = "".
Proof. reflexivity. Qed.

Example slice_cuts_a_string : Js.String_slice "abcdef" 0 4 = "abcd".
Proof. reflexivity. Qed.

Example slice_of_a_short_string : Js.String_slice "ab" 0 48 = "ab".
Proof. reflexivity. Qed.

Example slice_keeps_the_tail :
  Js.Array_slice [1; 2; 3; 4; 5] (-2) None = [4; 5].
Proof. reflexivity. Qed.

Example slice_of_a_short_array : Js.Array_slice [1; 2] (-200) None = [1; 2].
Proof. reflexivity. Qed.

Example set_replaces_in_place :
  JsMap.set "a" 3 [("a", 1); ("b", 2)] = [("a", 3); ("b", 2)].
Proof. reflexivity. Qed.

Example delete_of_absent_key :
  JsMap.delete "c" [("a", 1); ("b", 2)] = [("a", 1); ("b", 2)].
Proof. reflexivity. Qed.

(** A text of 481 characters is stored with 480. *)
Example long_text_is_cut :
  map (fun m => String.length (msg_text m))
    (appended
       (log_of
          (on_message (fun _ => Some Demo.long_message) Demo.stringify
             Demo.uuid Demo.iso Demo.send_throws (Text "") initial)))
  = [480].
Proof. vm_compute. reflexivity. Qed.

(** After 201 greetings the store holds 200 messages. *)
Example store_is_capped :
  length
    (store
       (state_of
          (demo_run (repeat (SocketMessage 0 (Text Demo.hello_text)) 201)
             (state_of (demo_run [Request Demo.upgrade] initial)))))
  = 200.
Proof. vm_compute. reflexivity. Qed.
